(** * CSVanalyTenhou: the chart pipelines, embedded and verified

    The two chart generators of the repository are embedded here:
    [plot_rate_changes] (rate变化图生成.py) and the correlation heat maps
    (相关系数热力图生成.py).

    Numbers.  The rate column holds float64 values.  They are modelled as
    exact rationals [Q]; the model and the program agree wherever the
    float operations involved are exact, which is the case for every
    concrete series used below (integers and dyadic fractions of small
    magnitude).  pandas' NaN is the constructor [NaN] of [num]; a data
    column itself is a [list Q] (the callers [dropna] it). *)

From Stdlib Require Import List ZArith QArith Qround Qabs Bool Lia Arith.
From Stdlib Require Import String Ascii DecimalString SetoidList.
From Stdlib Require Import Sorting.Permutation Sorting.Sorted.
Import ListNotations.

Open Scope Q_scope.

(** ** Floats as the program compares them *)

Definition Qlt_bool (x y : Q) : bool := negb (Qle_bool y x).

(** A float64 result that may be NaN. *)
Inductive num : Type :=
| NaN : num
| Val : Q -> num.

(** ** The pandas Series operations the program calls *)

Module Series.

(** [values.empty] *)
Definition empty (values : list Q) : bool :=
  match values with [] => true | _ :: _ => false end.

(** Number of entries equal (as floats) to [x]. *)
Definition count (x : Q) (values : list Q) : nat :=
  List.length (filter (Qeq_bool x) values).

(** Highest number of occurrences of one value. *)
Definition max_count (values : list Q) : nat :=
  list_max (map (fun x => count x values) values).

(** [Series.unique()]: first occurrences, in order. *)
Fixpoint unique (values : list Q) : list Q :=
  match values with
  | [] => []
  | x :: rest => x :: filter (fun y => negb (Qeq_bool x y)) (unique rest)
  end.

Fixpoint insert (x : Q) (sorted : list Q) : list Q :=
  match sorted with
  | [] => [x]
  | y :: rest => if Qle_bool x y then x :: sorted else y :: insert x rest
  end.

(** Ascending sort of the values. *)
Definition sort (values : list Q) : list Q := fold_right insert [] values.

(** [Series.mode()]: every value whose count is the highest one,
    each once, in ascending order.  On a non-empty series the result
    is never empty: when no value repeats, every value is a mode. *)
Definition mode (values : list Q) : list Q :=
  sort (unique (filter (fun x => Nat.eqb (count x values) (max_count values)) values)).

(** [Series.median()]: the middle value of the sorted series, the mean
    of the two middle values for an even length, NaN when empty. *)
Definition median (values : list Q) : num :=
  let s := sort values in
  let n := List.length s in
  match n with
  | O => NaN
  | _ => if Nat.even n
         then Val ((nth (n / 2 - 1) s 0 + nth (n / 2) s 0) / 2)
         else Val (nth (n / 2) s 0)
  end.

(** [Series.min()] and [Series.max()], NaN when empty. *)
Definition min (values : list Q) : num :=
  match values with
  | [] => NaN
  | x :: rest => Val (fold_left (fun m y => if Qlt_bool y m then y else m) rest x)
  end.

Definition max (values : list Q) : num :=
  match values with
  | [] => NaN
  | x :: rest => Val (fold_left (fun m y => if Qlt_bool m y then y else m) rest x)
  end.

(** [Series.diff().fillna(0)]: the first entry, NaN in pandas, becomes 0;
    each later entry is the value minus the previous one. *)
Fixpoint diff_from (prev : Q) (values : list Q) : list Q :=
  match values with
  | [] => []
  | x :: rest => (x - prev) :: diff_from x rest
  end.

Definition diff_fillna0 (values : list Q) : list Q :=
  match values with
  | [] => []
  | x :: rest => 0 :: diff_from x rest
  end.

End Series.

(** ** plot_rate_changes: the colour normalisation range *)

(** The nested helper [get_mode_pd]; [None] is Python's None. *)
Definition get_mode_pd (values : list Q) : option Q :=
  if Series.empty values then None
  else match Series.mode values with
       | m :: _ => Some m
       | [] => None
       end.

(** Python's [a or b] where [a] is None or a float and [b] a float:
    [a] when it is truthy (not None, not zero), else [b]. *)
Definition py_or (a : option Q) (b : num) : num :=
  match a with
  | Some x => if Qeq_bool x 0 then b else Val x
  | None => b
  end.

Definition positive_values (rate_change : list Q) : list Q :=
  filter (fun d => Qlt_bool 0 d) rate_change.

Definition negative_values (rate_change : list Q) : list Q :=
  filter (fun d => Qlt_bool d 0) rate_change.

Definition pos_mode (rate_change : list Q) : num :=
  py_or (get_mode_pd (positive_values rate_change))
        (Series.median (positive_values rate_change)).

Definition neg_mode (rate_change : list Q) : num :=
  py_or (get_mode_pd (negative_values rate_change))
        (Series.median (negative_values rate_change)).

Definition vmin (rate_change : list Q) : num :=
  if negb (Series.empty (negative_values rate_change))
  then neg_mode rate_change
  else Series.min rate_change.

Definition vmax (rate_change : list Q) : num :=
  if negb (Series.empty (positive_values rate_change))
  then pos_mode rate_change
  else Series.max rate_change.

(** [plt.Normalize(vmin, vmax)] raises ValueError when [vmin > vmax];
    the other exceptions of the two modules are listed with it. *)
Inductive exn : Type :=
| ZeroDivisionError
| ValueError
| KeyError.

Inductive outcome (A : Type) : Type :=
| Ok : A -> outcome A
| Raise : exn -> outcome A.
Arguments Ok {A} _.
Arguments Raise {A} _.

Definition bind {A B : Type} (m : outcome A) (k : A -> outcome B) : outcome B :=
  match m with
  | Ok a => k a
  | Raise e => Raise e
  end.

Notation "x <- m ;; k" := (bind m (fun x => k))
  (at level 61, m at next level, right associativity).

(** [plt.Normalize(vmin, vmax)(x)] with the default [clip=False]:
    all zeros when the two ends coincide, the linear map otherwise. *)
Definition color_norm (lo hi : num) (x : Q) : outcome num :=
  match lo, hi with
  | Val a, Val b =>
      if Qeq_bool a b then Ok (Val 0)
      else if Qlt_bool b a then Raise ValueError
      else Ok (Val ((x - a) / (b - a)))
  | _, _ => Ok NaN
  end.

(** [plt.cm.RdYlGn] is a table of 256 colours; a colour is modelled by
    its position in the table.  Values below 0 take the first entry,
    values from 1 on the last one, NaN the "bad" colour (-1 here). *)
Definition RdYlGn (x : num) : Z :=
  match x with
  | NaN => (-1)%Z
  | Val q => Z.max 0 (Z.min 255 (Qfloor (q * 256)))
  end.

Fixpoint map_outcome {A B : Type} (f : A -> outcome B) (l : list A) : outcome (list B) :=
  match l with
  | [] => Ok []
  | a :: rest => b <- f a ;; bs <- map_outcome f rest ;; Ok (b :: bs)
  end.

Definition bar_colors (rate_change : list Q) : outcome (list Z) :=
  map_outcome (fun d => c <- color_norm (vmin rate_change) (vmax rate_change) d ;; Ok (RdYlGn c))
              rate_change.

(** ** plot_rate_changes: the bar labels *)

Inductive valign : Type := va_top | va_bottom.

(** Round a non-negative rational to the nearest integer, ties to even. *)
Definition round_half_even (x : Q) : Z :=
  let f := Qfloor x in
  let r := x - inject_Z f in
  if Qlt_bool r (1 # 2) then f
  else if Qlt_bool (1 # 2) r then (f + 1)%Z
  else if Z.even f then f else (f + 1)%Z.

Definition digits (n : Z) : string :=
  DecimalString.NilZero.string_of_uint (N.to_uint (Z.to_N n)).

(** [f'{current_value:.1f}']: sign, integer part, one decimal, the exact
    value rounded half to even; a negative value keeps its sign even
    when it rounds to zero. *)
Definition format_1f (v : Q) : string :=
  let t := round_half_even (Qabs v * 10) in
  ((if Qlt_bool v 0 then "-" else "") ++ digits (t / 10) ++ "." ++ digits (t mod 10))%string.

Record bar_label : Type := {
  lab_idx : Z;
  lab_value : Q;
  lab_text : string;
  lab_va : valign
}.

(** [label_interval = max(1, len(plot_df) // max_bar_labels)] *)
Definition label_interval (n max_bar_labels : Z) : outcome Z :=
  if (max_bar_labels =? 0)%Z then Raise ZeroDivisionError
  else Ok (Z.max 1 (n / max_bar_labels)).

(** [current_value in seen_values]: membership in the set of floats. *)
Definition seen (v : Q) (seen_values : list Q) : bool :=
  existsb (Qeq_bool v) seen_values.

Definition make_label (idx : Z) (current_value : Q) : bar_label :=
  {| lab_idx := idx;
     lab_value := current_value;
     lab_text := format_1f current_value;
     lab_va := if Qlt_bool 0 current_value then va_top else va_bottom |}.

(** The labelling loop over the bars, from bar [idx] on. *)
Fixpoint label_loop (interval idx : Z) (bars : list Q) (seen_values : list Q)
  : list bar_label :=
  match bars with
  | [] => []
  | current_value :: rest =>
      if negb (idx mod interval =? 0)%Z
      then label_loop interval (idx + 1) rest seen_values
      else if seen current_value seen_values
      then label_loop interval (idx + 1) rest seen_values
      else make_label idx current_value
             :: label_loop interval (idx + 1) rest (current_value :: seen_values)
  end.

(** The bars the first test of the loop lets through. *)
Definition candidate_indices (interval n : Z) : list Z :=
  filter (fun idx => (idx mod interval =? 0)%Z) (map Z.of_nat (seq 0 (Z.to_nat n))).

Definition bar_labels (rate_change : list Q) (max_bar_labels : Z) : outcome (list bar_label) :=
  interval <- label_interval (Z.of_nat (List.length rate_change)) max_bar_labels ;;
  Ok (label_loop interval 0 rate_change []).

(** ** plot_rate_changes: the extrema callouts *)

Inductive ext_color : Type := red | blue.

Record annotation : Type := {
  ann_idx : nat;
  ann_value : Q;
  ann_text_y : Q;
  ann_color : ext_color
}.

(** [Series.idxmax()] / [Series.idxmin()]: position of the first
    largest (smallest) value. *)
Fixpoint idx_best (better : Q -> Q -> bool) (best : Q) (best_i i : nat) (values : list Q) : nat :=
  match values with
  | [] => best_i
  | x :: rest => if better x best then idx_best better x i (S i) rest
                 else idx_best better best best_i (S i) rest
  end.

Definition idxmax (values : list Q) : nat :=
  match values with
  | [] => O
  | x :: rest => idx_best (fun y best => Qlt_bool best y) x 0 1 rest
  end.

Definition idxmin (values : list Q) : nat :=
  match values with
  | [] => O
  | x :: rest => idx_best (fun y best => Qlt_bool y best) x 0 1 rest
  end.

Definition annotate (rates : list Q) (rate_range : Q) (idx : nat) (color : ext_color) (offset : Q)
  : annotation :=
  let value := nth idx rates 0 in
  {| ann_idx := idx;
     ann_value := value;
     ann_text_y := value + rate_range * (1 # 10) * offset;
     ann_color := color |}.

Definition extrema_annotations (rates : list Q) : list annotation :=
  if (1 <? List.length rates)%nat then
    match Series.max rates, Series.min rates with
    | Val hi, Val lo =>
        let rate_range := hi - lo in
        if Qlt_bool 0 rate_range then
          [ annotate rates rate_range (idxmax rates) red 1;
            annotate rates rate_range (idxmin rates) blue (-1) ]
        else []
    | _, _ => []
    end
  else [].

(** ** plot_rate_changes: the ticks of the shared axis *)

(** [np.linspace(start, stop, num, dtype=int)]: [num] samples
    [start + i * step] with [step = (stop - start) / (num - 1)], the last
    one set to [stop], each rounded down. *)
Definition linspace_int (start stop : Z) (num : nat) : list Z :=
  match num with
  | O => []
  | S O => [start]
  | S div =>
      let step := inject_Z (stop - start) / inject_Z (Z.of_nat div) in
      map (fun i => Qfloor (inject_Z (Z.of_nat i) * step + inject_Z start)) (seq 0 div)
      ++ [stop]
  end.

Record ticks : Type := {
  tick_indices : list Z;
  tick_labels : list Z
}.

(** [set_smart_ticks]; [None] is the early return that leaves the
    default ticks.  A date label is represented by the instant it
    formats. *)
Definition set_smart_ticks (times : list Z) : option ticks :=
  let n := List.length times in
  if (n <=? 1)%nat then None
  else
    let num_ticks := Nat.min n 10 in
    let indices := linspace_int 0 (Z.of_nat n - 1) num_ticks in
    Some {| tick_indices := indices;
            tick_labels := map (fun i => nth (Z.to_nat i) times 0%Z) indices |}.

(** ** plot_rate_changes: the data frame and what is drawn *)

(** A row of the input frame: the instant [time_col] parses to, the
    value of [rate_col], and the value of the column 'rate_change',
    read only when the frame has that column. *)
Record row : Type := {
  time : Z;
  rate : Q;
  change : Q
}.

Record DataFrame : Type := {
  has_rate_change : bool;
  rows : list row
}.

Fixpoint insert_row (r : row) (sorted : list row) : list row :=
  match sorted with
  | [] => [r]
  | r' :: rest => if (time r <=? time r')%Z then r :: sorted else r' :: insert_row r rest
  end.

(** [sort_values('time_formatted').reset_index(drop=True)] *)
Definition sort_values (rs : list row) : list row := fold_right insert_row [] rs.

(** Everything the call computes and puts on the two panels. *)
Record rate_chart : Type := {
  chart_rate_change : list Q;
  chart_colors : list Z;
  chart_labels : list bar_label;
  chart_annotations : list annotation;
  chart_ticks : option ticks
}.

(** Lines 50-56: the column 'rate_change' and the local [first_rate]
    after the preprocessing. *)
Definition preprocess (df : DataFrame) (plot_df : list row) (first_rate : Q) : list Q * Q :=
  if negb (has_rate_change df) then
    let rate_change := Series.diff_fillna0 (map rate plot_df) in
    if (0 <? List.length plot_df)%nat then
      if Qeq_bool first_rate 0 && (0 <? List.length plot_df)%nat
      then (rate_change, nth 0 (map rate plot_df) 0 - nth 0 rate_change 0)
      else (rate_change, first_rate)
    else (rate_change, first_rate)
  else (map change plot_df, first_rate).

(** The computations of [plot_rate_changes] between the creation of the
    figure and its encoding, in the order of the source. *)
Definition compute_rate_chart (df : DataFrame) (max_bar_labels : Z) (first_rate : Q)
  : outcome rate_chart :=
  let plot_df := sort_values (rows df) in
  let '(rate_change, first_rate) := preprocess df plot_df first_rate in
  colors <- bar_colors rate_change ;;
  labels <- bar_labels rate_change max_bar_labels ;;
  Ok {| chart_rate_change := rate_change;
        chart_colors := colors;
        chart_labels := labels;
        chart_annotations := extrema_annotations (map rate plot_df);
        chart_ticks := set_smart_ticks (map time plot_df) |}.

(** ** The correlation heat map: matrices and masks *)

Inductive cell : Type :=
| Number : num -> cell
| Text : string -> cell.

Record table : Type := {
  columns : list string;
  cells : list (list cell)
}.

(** A correlation matrix with its row and column labels. *)
Record corr_frame : Type := {
  cf_index : list string;
  cf_columns : list string;
  cf_values : list (list num)
}.

(** An n-by-n float array under construction. *)
Definition ndarray : Type := nat -> nat -> Q.

Definition set_item (a : ndarray) (i j : nat) (v : Q) : ndarray :=
  fun i' j' => if (Nat.eqb i i' && Nat.eqb j j')%bool then v else a i' j'.

(** [for i in range(n): corr_values[i, i] = 1.0] *)
Definition fill_ones (n : nat) (a : ndarray) : ndarray :=
  fold_left (fun a i => set_item a i i 1) (seq 0 n) a.

(** [for i in range(n): for j in range(i+1, n): corr_values[j, i] = corr_values[i, j]] *)
Definition symmetrize (n : nat) (a : ndarray) : ndarray :=
  fold_left (fun a i =>
               fold_left (fun a j => set_item a j i (a i j)) (seq (S i) (n - S i)) a)
            (seq 0 n) a.

Definition to_values (n : nat) (a : ndarray) : list (list num) :=
  map (fun i => map (fun j => Val (a i j)) (seq 0 n)) (seq 0 n).

(** The except branch of [generate_correlation_heatmap]; [draws] is what
    [np.random.uniform(-1, 1, (n, n))] returned. *)
Definition fallback_corr (data : table) (draws : ndarray) : corr_frame :=
  let metrics := columns data in
  let n := List.length metrics in
  let corr_values := symmetrize n (fill_ones n draws) in
  {| cf_index := metrics; cf_columns := metrics; cf_values := to_values n corr_values |}.

(** [np.triu(np.ones_like(corr, dtype=bool))] *)
Definition triu_ones (n : nat) : list (list bool) :=
  map (fun i => map (fun j => (i <=? j)%nat) (seq 0 n)) (seq 0 n).

(** [np.fill_diagonal(mask, v)] *)
Definition fill_diagonal (mask : list (list bool)) (v : bool) : list (list bool) :=
  map (fun '(i, r) => map (fun '(j, b) => if Nat.eqb i j then v else b)
                          (combine (seq 0 (List.length r)) r))
      (combine (seq 0 (List.length mask)) mask).

(** Lines 62-66 of [generate_correlation_heatmap]. *)
Definition make_mask (n : nat) (mask_half diagonal : bool) : option (list (list bool)) :=
  if mask_half then
    let mask := triu_ones n in
    if negb diagonal then Some (fill_diagonal mask false) else Some mask
  else None.

(** seaborn draws no cell where the mask is True. *)
Definition hidden (mask : option (list (list bool))) (i j : nat) : bool :=
  match mask with
  | None => false
  | Some m => nth j (nth i m []) false
  end.

Record heat_panel : Type := {
  panel_corr : corr_frame;
  panel_mask : option (list (list bool));
  panel_method : string
}.

(** ** matplotlib.pyplot: the figure registry and the file system *)

Inductive artwork : Type :=
| RateArt : rate_chart -> artwork
| HeatArt : heat_panel -> artwork.

(** A figure is what has been drawn on it; a new figure is blank. *)
Definition figure : Type := list artwork.

Definition blank : figure := [].

(** The PNG that [savefig] produces from a figure at a resolution.  The
    base64 text returned to the caller is a recoding of these bytes and
    is represented by the same value. *)
Record image : Type := {
  img_figure : figure;
  img_dpi : Z
}.

(** The process-wide state of pyplot: the open figures, the current one
    first; the files written so far, the latest first; and how many
    times the random generator has been asked for a matrix. *)
Record world : Type := {
  figs : list figure;
  files : list (string * image);
  rng_calls : nat
}.

(** Computations that read and change that state and may raise. *)
Definition plt (A : Type) : Type := world -> outcome A * world.

Definition ret {A : Type} (a : A) : plt A := fun w => (Ok a, w).

Definition seq_plt {A B : Type} (m : plt A) (k : A -> plt B) : plt B :=
  fun w => match m w with
           | (Ok a, w') => k a w'
           | (Raise e, w') => (Raise e, w')
           end.

Notation "x <~ m ;; k" := (seq_plt m (fun x => k))
  (at level 61, m at next level, right associativity).
Notation "m ;;; k" := (seq_plt m (fun _ => k))
  (at level 61, right associativity).

Definition lift {A : Type} (m : outcome A) : plt A := fun w => (m, w).

(** [plt.close('all')] *)
Definition close_all : plt unit :=
  fun w => (Ok tt, {| figs := []; files := files w; rng_calls := rng_calls w |}).

(** [plt.figure(...)] and [plt.subplots(...)]: a new blank figure
    becomes the current one. *)
Definition new_figure : plt unit :=
  fun w => (Ok tt, {| figs := blank :: figs w; files := files w; rng_calls := rng_calls w |}).

(** [plt.gcf()]: the current figure; when none is open a new blank one
    is created, and stays open. *)
Definition gcf : plt figure :=
  fun w => match figs w with
           | f :: _ => (Ok f, w)
           | [] => (Ok blank, {| figs := [blank]; files := files w; rng_calls := rng_calls w |})
           end.

(** Drawing on the current figure (the axes of this module all belong
    to it). *)
Definition draw (a : artwork) : plt unit :=
  f <~ gcf ;;
  fun w => (Ok tt, {| figs := (f ++ [a]) :: tl (figs w); files := files w;
                      rng_calls := rng_calls w |}).

(** [plt.savefig(img_buffer, format='png', dpi=...)] followed by
    [b64encode(img_buffer.getvalue())] *)
Definition savefig_buffer (dpi : Z) : plt image :=
  f <~ gcf ;; ret {| img_figure := f; img_dpi := dpi |}.

(** [plt.savefig(path, dpi=...)] *)
Definition savefig_file (path : string) (dpi : Z) : plt unit :=
  f <~ gcf ;;
  fun w => (Ok tt, {| figs := figs w;
                      files := (path, {| img_figure := f; img_dpi := dpi |}) :: files w;
                      rng_calls := rng_calls w |}).

(** [plt.close()]: the current figure leaves the registry. *)
Definition close : plt unit :=
  fun w => (Ok tt, {| figs := tl (figs w); files := files w; rng_calls := rng_calls w |}).

(** The latest content written at [path]. *)
Fixpoint read_file (fs : list (string * image)) (path : string) : option image :=
  match fs with
  | [] => None
  | (p, img) :: rest => if String.eqb p path then Some img else read_file rest path
  end.

(** Truth value of the argument [output_file]: None and the empty
    string are false. *)
Definition truthy (output_file : option string) : bool :=
  match output_file with
  | None => false
  | Some s => negb (String.eqb s "")
  end.

Definition when_file (output_file : option string) (k : string -> plt unit) : plt unit :=
  match output_file with
  | Some path => if truthy output_file then k path else ret tt
  | None => ret tt
  end.

(** ** plot_rate_changes *)

Definition plot_rate_changes (df : DataFrame) (max_bar_labels : Z) (first_rate : Q)
           (output_file : option string) : plt image :=
  close_all ;;;
  new_figure ;;;
  chart <~ lift (compute_rate_chart df max_bar_labels first_rate) ;;
  draw (RateArt chart) ;;;
  img_base64 <~ savefig_buffer 100 ;;
  close ;;;
  when_file output_file (fun path => savefig_file path 150) ;;;
  ret img_base64.

(** ** The correlation heat maps *)

Section Correlation.

(** [DataFrame.corr(method=...)] of pandas, which may raise, and the
    matrices [np.random.uniform] returns, call after call. *)
Variable corr : table -> string -> outcome corr_frame.
Variable uniform : nat -> ndarray.

Definition random_uniform : plt ndarray :=
  fun w => (Ok (uniform (rng_calls w)),
            {| figs := figs w; files := files w; rng_calls := S (rng_calls w) |}).

(** Lines 43-59: the matrix the heat map shows. *)
Definition corr_or_fallback (data : table) (method : string) : plt corr_frame :=
  match corr data method with
  | Ok c => ret c
  | Raise _ => draws <~ random_uniform ;; ret (fallback_corr data draws)
  end.

Definition generate_correlation_heatmap (data : table) (method : string)
           (mask_half diagonal : bool) (output_file : option string) : plt image :=
  c <~ corr_or_fallback data method ;;
  let mask := make_mask (List.length (cf_values c)) mask_half diagonal in
  new_figure ;;;
  draw (HeatArt {| panel_corr := c; panel_mask := mask; panel_method := method |}) ;;;
  img_base64 <~ savefig_buffer 150 ;;
  close ;;;
  when_file output_file (fun path => savefig_file path 150) ;;;
  ret img_base64.

(** [data[target_variables]]: the named columns, KeyError when one is
    missing. *)
Fixpoint index_of (name : string) (names : list string) : option nat :=
  match names with
  | [] => None
  | x :: rest => if String.eqb x name then Some O
                 else option_map S (index_of name rest)
  end.

Definition select (data : table) (target_variables : list string) : outcome table :=
  idxs <- map_outcome (fun v => match index_of v (columns data) with
                                | Some i => Ok i
                                | None => Raise KeyError
                                end) target_variables ;;
  Ok {| columns := target_variables;
        cells := map (fun r => map (fun i => nth i r (Number NaN)) idxs) (cells data) |}.

(** [result_images[key] = value] on a dict kept in insertion order. *)
Fixpoint dict_set (d : list (string * image)) (key : string) (value : image)
  : list (string * image) :=
  match d with
  | [] => [(key, value)]
  | (k, v) :: rest => if String.eqb k key then (k, value) :: rest
                      else (k, v) :: dict_set rest key value
  end.

Definition method_file (output_file : option string) (suffix : string) : option string :=
  match output_file with
  | Some path => if truthy output_file then Some (path ++ "_" ++ suffix ++ ".png")%string
                 else None
  | None => None
  end.

(** The first loop: one heat map per method. *)
Fixpoint per_method (filtered_data : table) (methods : list string)
         (output_file : option string) (result_images : list (string * image))
  : plt (list (string * image)) :=
  match methods with
  | [] => ret result_images
  | method :: rest =>
      img_base64 <~ generate_correlation_heatmap filtered_data method true false
                      (method_file output_file method) ;;
      per_method filtered_data rest output_file (dict_set result_images method img_base64)
  end.

(** The second loop: the panels of the combined figure. *)
Fixpoint combined_panels (filtered_data : table) (methods : list string) : plt unit :=
  match methods with
  | [] => ret tt
  | method :: rest =>
      c <~ lift (corr filtered_data method) ;;
      let mask := Some (triu_ones (List.length (cf_values c))) in
      draw (HeatArt {| panel_corr := c; panel_mask := mask; panel_method := method |}) ;;;
      combined_panels filtered_data rest
  end.

Definition generate_advanced_correlation_heatmap (data : table)
           (target_variables : option (list string)) (methods : option (list string))
           (output_file : option string) : plt (list (string * image)) :=
  let methods := match methods with Some ms => ms | None => ["pearson"; "spearman"]%string end in
  let target_variables :=
    match target_variables with Some vs => vs | None => columns data end in
  filtered_data <~ lift (select data target_variables) ;;
  result_images <~ per_method filtered_data methods output_file [] ;;
  if (1 <? List.length methods)%nat then
    new_figure ;;;
    combined_panels filtered_data methods ;;;
    combined_img_base64 <~ savefig_buffer 150 ;;
    close ;;;
    let result_images := dict_set result_images "combined" combined_img_base64 in
    when_file output_file (fun path => savefig_file (path ++ "_combined.png") 150) ;;;
    ret result_images
  else ret result_images.

End Correlation.

(** ** csv数据分析.py: the caller of the heat maps *)

(** [d.get(key)] on a dict; None when the key is absent. *)
Fixpoint dict_get {V : Type} (d : list (string * V)) (key : string) : option V :=
  match d with
  | [] => None
  | (k, v) :: rest => if String.eqb k key then Some v else dict_get rest key
  end.

(** [try: m except Exception as e: handler] *)
Definition try_except {A : Type} (m : plt A) (handler : exn -> plt A) : plt A :=
  fun w => match m w with
           | (Ok a, w') => (Ok a, w')
           | (Raise e, w') => handler e w'
           end.

(** [df.empty]: no column or no row. *)
Definition df_empty (df : table) : bool :=
  match columns df, cells df with
  | [], _ => true
  | _, [] => true
  | _, _ => false
  end.

Definition potential_vars : list string :=
  ["顺位"; "一位率"; "二位率"; "吃分率"; "和了率"; "放铳率";
   "副露率"; "立直率"; "默听率"; "流局率"; "平均和了打点"]%string.

(** [var in df.columns] *)
Definition has_column (df : table) (var : string) : bool :=
  existsb (String.eqb var) (columns df).

Section Analysis.

Variable corr : table -> string -> outcome corr_frame.
Variable uniform : nat -> ndarray.

(** [generate_correlation_analysis]; an image that is the empty string
    is None. *)
Definition generate_correlation_analysis (df : option table)
           (important_vars : option (list string)) : plt (list (string * option image)) :=
  match df with
  | None => ret []
  | Some df =>
      if df_empty df then ret []
      else
        let important_vars :=
          match important_vars with
          | Some vars => vars
          | None => filter (has_column df) potential_vars
          end in
        if (List.length important_vars <? 3)%nat then ret []
        else
          try_except
            (data1 <~ lift (select df important_vars) ;;
             pearson_img <~ generate_correlation_heatmap corr uniform data1 "pearson"
                              true false None ;;
             data2 <~ lift (select df important_vars) ;;
             spearman_img <~ generate_correlation_heatmap corr uniform data2 "spearman"
                               true false None ;;
             data3 <~ lift (select df important_vars) ;;
             advanced_imgs <~ generate_advanced_correlation_heatmap corr uniform data3 None
                                (Some ["pearson"; "spearman"]%string) None ;;
             ret [ ("相关系数热力图(Pearson)"%string, Some pearson_img);
                   ("相关系数热力图(Spearman)"%string, Some spearman_img);
                   ("组合相关系数热力图"%string, dict_get advanced_imgs "combined") ])
            (fun _ => ret [])
  end.

End Analysis.

(** The variables [generate_correlation_analysis] works on: the ones
    given, or the usual indicators that are columns of the frame. *)
Definition chosen_vars (df : table) (important_vars : option (list string)) : list string :=
  match important_vars with
  | Some vars => vars
  | None => filter (has_column df) potential_vars
  end.

(** The position of the column [v], KeyError when there is none. *)
Definition lookup_column (names : list string) (v : string) : outcome nat :=
  match index_of v names with
  | Some i => Ok i
  | None => Raise KeyError
  end.

(** The image of one heat map drawn from the matrix [c]. *)
Definition heat_image (c : corr_frame) (method : string) (mask_half diagonal : bool) : image :=
  {| img_figure := [HeatArt {| panel_corr := c;
                               panel_mask := make_mask (List.length (cf_values c))
                                                       mask_half diagonal;
                               panel_method := method |}];
     img_dpi := 150 |}.

(** The panel of the combined figure drawn from the matrix [c]. *)
Definition combined_panel (c : corr_frame) (method : string) : artwork :=
  HeatArt {| panel_corr := c;
             panel_mask := Some (triu_ones (List.length (cf_values c)));
             panel_method := method |}.

(** ** csv数据分析.py: the file list of the main menu *)

(** [needle in hay] on strings. *)
Fixpoint contains (needle hay : string) : bool :=
  if String.prefix needle hay then true
  else match hay with
       | EmptyString => false
       | String _ rest => contains needle rest
       end.

(** [l[a:b]] with Python's treatment of negative and oversized bounds. *)
Definition py_slice {A : Type} (l : list A) (a b : Z) : list A :=
  let n := Z.of_nat (List.length l) in
  let norm := fun x => if (x <? 0)%Z then Z.max (x + n) 0 else Z.min x n in
  firstn (Z.to_nat (norm b - norm a)) (skipn (Z.to_nat (norm a)) l).

(** [enumerate(l, start=start)] *)
Fixpoint enumerate {A : Type} (start : Z) (l : list A) : list (Z * A) :=
  match l with
  | [] => []
  | x :: rest => (start, x) :: enumerate (start + 1) rest
  end.

(** What [display_files] returns, and the numbered lines it prints. *)
Record file_page : Type := {
  filtered_files : list string;
  total_pages : Z;
  current_page : Z;
  listed : list (Z * string)
}.

Section FileMenu.

(** [str.lower()] *)
Variable lower : string -> string.

Definition display_files (files : list string) (page_size current_page : Z)
           (filter_text : string) : outcome file_page :=
  let filtered_files := filter (fun name => contains (lower filter_text) (lower name)) files in
  if (page_size =? 0)%Z then Raise ZeroDivisionError
  else
    let n := Z.of_nat (List.length filtered_files) in
    let total_pages := ((n + page_size - 1) / page_size)%Z in
    if (total_pages =? 0)%Z then
      Ok {| filtered_files := filtered_files; total_pages := total_pages;
            current_page := current_page; listed := [] |}
    else
      let current_page := Z.max 1 (Z.min current_page total_pages) in
      let start_idx := ((current_page - 1) * page_size)%Z in
      let end_idx := Z.min (start_idx + page_size) n in
      Ok {| filtered_files := filtered_files; total_pages := total_pages;
            current_page := current_page;
            listed := enumerate (start_idx + 1) (py_slice filtered_files start_idx end_idx) |}.

End FileMenu.

(** The choice of a file by its number in the main loop:
    [filtered_files[file_index - 1]] when
    [1 <= file_index <= len(filtered_files)]. *)
Definition select_file (filtered_files : list string) (file_index : Z) : option string :=
  if ((1 <=? file_index)%Z && (file_index <=? Z.of_nat (List.length filtered_files))%Z)%bool
  then nth_error filtered_files (Z.to_nat (file_index - 1))
  else None.

(** ** csv数据分析.py: the indicators and the style data *)

(** The sum of a list of numbers. *)
Definition Qsum (values : list Q) : Q := fold_right Qplus 0 values.


(** [d[key] = value]: the value of an existing key is replaced in
    place, a new key goes to the end. *)
Fixpoint dict_put {V : Type} (d : list (string * V)) (key : string) (value : V)
  : list (string * V) :=
  match d with
  | [] => [(key, value)]
  | (k, v) :: rest => if String.eqb k key then (k, value) :: rest
                      else (k, v) :: dict_put rest key value
  end.

(** [d.update(other)] *)
Definition dict_update {V : Type} (d other : list (string * V)) : list (string * V) :=
  fold_left (fun acc kv => dict_put acc (fst kv) (snd kv)) other d.

(** [d.get(key, default)] *)
Definition dict_get_default {V : Type} (d : list (string * V)) (key : string) (default : V) : V :=
  match dict_get d key with
  | Some v => v
  | None => default
  end.

(** A game of the preprocessed frame: rank (NaN when the text held no
    digit), rule, and the cells of the optional columns '获得pt' and
    'R值', read only when the frame has the column. *)
Record game : Type := {
  g_rank : num;
  g_rule : string;
  g_pt : num;
  g_r : num
}.

Record games_frame : Type := {
  has_pt : bool;
  has_r : bool;
  games : list game
}.

Definition num_mul (x : num) (k : Q) : num :=
  match x with
  | NaN => NaN
  | Val q => Val (q * k)
  end.

Definition num_add (x y : num) : num :=
  match x, y with
  | Val a, Val b => Val (a + b)
  | _, _ => NaN
  end.

Definition num_sub (x y : num) : num :=
  match x, y with
  | Val a, Val b => Val (a - b)
  | _, _ => NaN
  end.

(** The values of a column that are not NaN. *)
Fixpoint dropna (values : list num) : list Q :=
  match values with
  | [] => []
  | NaN :: rest => dropna rest
  | Val q :: rest => q :: dropna rest
  end.

(** [Series.fillna(0)] *)
Definition fillna0 (values : list num) : list Q :=
  map (fun x => match x with NaN => 0 | Val q => q end) values.

Section Statistics.

(** [round(x, ndigits)] on floats and the standard deviation of pandas
    are not rational computations; they are left open. *)
Variable round_ : num -> nat -> num.
Variable std : list Q -> num.

(** [Series.mean()], NaN on no value. *)
Definition mean (values : list Q) : num :=
  match values with
  | [] => NaN
  | _ => Val (Qsum values / inject_Z (Z.of_nat (List.length values)))
  end.

(** [(df['顺位'].value_counts() / total_games).get(k, 0)] *)
Definition rank_rate (ranks : list Q) (total_games : nat) (k : Q) : num :=
  match Series.count k ranks with
  | O => Val 0
  | c => Val (inject_Z (Z.of_nat c) / inject_Z (Z.of_nat total_games))
  end.

(** [sum(ch in str(rule) for rule in df['规则'])] *)
Definition count_rules (ch : string) (rules : list string) : nat :=
  List.length (filter (contains ch) rules).

Definition ratio (k total : nat) : num :=
  Val (inject_Z (Z.of_nat k) / inject_Z (Z.of_nat total)).

Definition calculate_statistics (df : option games_frame) : list (string * num) :=
  match df with
  | None => []
  | Some df =>
      match games df with
      | [] => []
      | _ =>
          let total_games := List.length (games df) in
          let ranks := dropna (map g_rank (games df)) in
          let avg_rank := mean ranks in
          let rate := rank_rate ranks total_games in
          let rules := map g_rule (games df) in
          let east := count_rules "東" rules in
          let south := count_rules "南" rules in
          let red := count_rules "赤" rules in
          let stats_dict :=
            [ ("有效牌谱数"%string, Val (inject_Z (Z.of_nat total_games)));
              ("平均顺位"%string, round_ avg_rank 4);
              ("一位率"%string, round_ (rate 1) 4);
              ("二位率"%string, round_ (rate 2) 4);
              ("三位率"%string, round_ (rate 3) 4);
              ("四位率"%string, round_ (rate 4) 4);
              ("吃分率"%string, round_ (num_add (rate 1) (rate 2)) 4);
              ("被飞率"%string, round_ (rate 4) 4) ] in
          let stats_dict :=
            if (0 <? east + south)%nat then
              dict_update stats_dict
                [ ("东场占比"%string, round_ (ratio east total_games) 4);
                  ("南场占比"%string, round_ (ratio south total_games) 4) ]
            else stats_dict in
          let stats_dict :=
            if (0 <? red)%nat then
              dict_put stats_dict "赤牌场数占比" (round_ (ratio red total_games) 4)
            else stats_dict in
          let stats_dict :=
            dict_update stats_dict
              [ ("和了率"%string, Val 0.25);
                ("放铳率"%string, Val 0.15);
                ("副露率"%string, Val 0.30);
                ("立直率"%string, Val 0.20);
                ("默听率"%string, Val 0.10);
                ("平均和了打点"%string, Val 6500);
                ("平均和了巡目"%string, Val 11.5);
                ("平均放铳打点"%string, Val 5800);
                ("流局率"%string, Val 0.15);
                ("立直先制率"%string, Val 0.75);
                ("追立率"%string, Val 0.25) ] in
          let stats_dict :=
            if has_pt df then
              let pt_values := fillna0 (map g_pt (games df)) in
              dict_update stats_dict
                [ ("总PT变化"%string, round_ (Val (Qsum pt_values)) 2);
                  ("场均PT变化"%string, round_ (mean pt_values) 2);
                  ("PT标准差"%string, round_ (std pt_values) 2);
                  ("PT最大值"%string, round_ (Series.max pt_values) 2);
                  ("PT最小值"%string, round_ (Series.min pt_values) 2) ]
            else stats_dict in
          if has_r df then
            let rate_values := dropna (map g_r (games df)) in
            if (2 <=? List.length rate_values)%nat then
              let first := nth 0 rate_values 0 in
              let final := last rate_values 0 in
              dict_update stats_dict
                [ ("Rate起始值"%string, round_ (Val first) 2);
                  ("Rate最终值"%string, round_ (Val final) 2);
                  ("Rate变化值"%string, round_ (Val (final - first)) 2);
                  ("Rate最高值"%string, round_ (Series.max rate_values) 2);
                  ("Rate最低值"%string, round_ (Series.min rate_values) 2) ]
            else stats_dict
          else stats_dict
      end
  end.

End Statistics.

Definition calculate_mahjong_style (stats_dict : list (string * num)) : list (string * num) :=
  [ ("horyu_rate"%string, num_mul (dict_get_default stats_dict "和了率" (Val 0.25)) 100);
    ("houju_rate"%string, num_mul (dict_get_default stats_dict "放铳率" (Val 0.15)) 100);
    ("furo_rate"%string, num_mul (dict_get_default stats_dict "副露率" (Val 0.30)) 100);
    ("riichi_rate"%string, num_mul (dict_get_default stats_dict "立直率" (Val 0.20)) 100);
    ("dama_rate"%string, num_mul (dict_get_default stats_dict "默听率" (Val 0.10)) 100);
    ("average_score"%string, dict_get_default stats_dict "平均和了打点" (Val 6500));
    ("avg_horyu_turn"%string, dict_get_default stats_dict "平均和了巡目" (Val 11.5));
    ("avg_houju_score"%string, dict_get_default stats_dict "平均放铳打点" (Val 5800));
    ("ryukyoku_rate"%string, num_mul (dict_get_default stats_dict "流局率" (Val 0.15)) 100);
    ("riichi_turn"%string, dict_get_default stats_dict "平均立直巡目" (Val 7.5));
    ("riichi_first_rate"%string,
     num_mul (dict_get_default stats_dict "立直先制率" (Val 0.75)) 100);
    ("riichi_chase_rate"%string, num_mul (dict_get_default stats_dict "追立率" (Val 0.25)) 100) ].

(** ** csv数据分析.py: preprocess_data *)

Section SortByTime.

Variable Row : Type.

(** The parsed column '开始时间'; None is NaT. *)
Variable start_time : Row -> option Z.

(** The order of [sort_values('开始时间', ascending=...)]: NaT goes
    last in both directions. *)
Definition comes_before (ascending : bool) (a b : Row) : bool :=
  match start_time a, start_time b with
  | _, None => true
  | None, Some _ => false
  | Some ta, Some tb => if ascending then (ta <=? tb)%Z else (tb <=? ta)%Z
  end.

Fixpoint insert_by (ascending : bool) (r : Row) (sorted : list Row) : list Row :=
  match sorted with
  | [] => [r]
  | r' :: rest => if comes_before ascending r r' then r :: sorted
                  else r' :: insert_by ascending r rest
  end.

Definition sort_by (ascending : bool) (rs : list Row) : list Row :=
  fold_right (insert_by ascending) [] rs.

End SortByTime.

Section PreprocessData.

Variables Raw Row : Type.

(** The conversions of the columns '顺位' (first run of digits, as a
    float) and '开始时间' ([pd.to_datetime(..., errors='coerce')]). *)
Variable convert : Raw -> Row.
Variable start_time : Row -> option Z.

Definition preprocess_data (df : option (list Raw)) (max_games : option Z)
  : option (list Row) :=
  match df with
  | None => None
  | Some rows =>
      let processed_df := map convert rows in
      let processed_df := sort_by Row start_time false processed_df in
      let processed_df :=
        match max_games with
        | Some k =>
            if ((0 <? k)%Z && (k <? Z.of_nat (List.length processed_df))%Z)%bool
            then firstn (Z.to_nat k) processed_df
            else processed_df
        | None => processed_df
        end in
      Some (sort_by Row start_time true processed_df)
  end.

End PreprocessData.

(** ** Predicates used in the statements *)

(** Two labels next to each other show the same text. *)
Fixpoint adjacent_repeat (texts : list string) : bool :=
  match texts with
  | a :: (b :: _) as rest => String.eqb a b || adjacent_repeat rest
  | _ => false
  end.

(** A series whose values are all the same number. *)
Definition constant (rates : list Q) : Prop :=
  forall x y, In x rates -> In y rates -> x == y.

(** The coefficient at row [i], column [j] of a correlation matrix. *)
Definition entry (c : corr_frame) (i j : nat) : num := nth j (nth i (cf_values c) []) NaN.

(** A computation that raises in no state. *)
Definition returns {A : Type} (m : plt A) : Prop :=
  forall w, exists a w', m w = (Ok a, w').

(** The colour of one bar, once the ends of the scale are known. *)
Definition bar_color (a b d : Q) : Z :=
  RdYlGn (if Qeq_bool a b then Val 0 else Val ((d - a) / (b - a))).

(** Rows in ascending order of time. *)
Definition time_le (a b : row) : Prop := (time a <= time b)%Z.

(** ** Sample inputs *)

(** Twenty-three games whose rate changes are pairwise different:
    1500, 1501, 1504, 1509, ... (deltas 0, 1, 3, 5, ...). *)
Definition series23 : list Q :=
  map (fun i => inject_Z (1500 + Z.of_nat i * Z.of_nat i)) (seq 0 23).

(** Three games a 64th of a point apart: deltas 0, 1/64 and 1/32. *)
Definition series_close : list Q := [1500; 1500 + (1 # 64); 1500 + (3 # 64)].

(** A frame of four games, given out of order. *)
Definition sample_df : DataFrame :=
  {| has_rate_change := false;
     rows := [ {| time := 3; rate := 1480; change := 0 |};
               {| time := 1; rate := 1500; change := 0 |};
               {| time := 2; rate := 1520; change := 0 |};
               {| time := 4; rate := 1480; change := 0 |} ] |}.

Definition empty_world : world := {| figs := []; files := []; rng_calls := 0 |}.

(** A table with a column of text, on which [DataFrame.corr] raises. *)
Definition text_table : table :=
  {| columns := ["name"; "score"]%string;
     cells := [ [Text "a"; Number (Val 1)]; [Text "b"; Number (Val 2)] ] |}.

Definition corr_raises : table -> string -> outcome corr_frame :=
  fun _ _ => Raise ValueError.

Definition draws_zero : nat -> ndarray := fun _ _ _ => 0.

(** A table of three numeric columns and a correlation routine that
    finds every pair of columns uncorrelated. *)
Definition numeric_table : table :=
  {| columns := ["a"; "b"; "c"]%string;
     cells := [ [Number (Val 1); Number (Val 2); Number (Val 3)];
                [Number (Val 2); Number (Val 1); Number (Val 3)] ] |}.

Definition corr_identity : table -> string -> outcome corr_frame :=
  fun data _ =>
    let n := List.length (columns data) in
    Ok {| cf_index := columns data;
          cf_columns := columns data;
          cf_values := map (fun i => map (fun j => Val (if Nat.eqb i j then 1 else 0))
                                         (seq 0 n)) (seq 0 n) |}.

(** * Properties *)

(** ** Worked scenarios *)

Example scenario_deltas :
  Series.diff_fillna0 [1500; 1520; 1480; 1480]
  = [0; 1520 - 1500; 1480 - 1520; 1480 - 1480].
Proof. reflexivity. Qed.

Example scenario_range :
  vmin [0; 20; -40; 0] = Val (-40) /\ vmax [0; 20; -40; 0] = Val 20.
Proof. split; reflexivity. Qed.

Example scenario_extrema :
  map ann_idx (extrema_annotations [1500; 1520; 1480; 1480]) = [1%nat; 2%nat].
Proof. reflexivity. Qed.

Example scenario_format :
  map format_1f [1520; -(401 # 10); 1 # 4; 3 # 4; -(1 # 32)]
  = ["1520.0"; "-40.1"; "0.2"; "0.8"; "-0.0"]%string.
Proof. reflexivity. Qed.

Example scenario_ticks :
  linspace_int 0 22 10 = [0; 2; 4; 7; 9; 12; 14; 17; 19; 22]%Z.
Proof. reflexivity. Qed.

(** ** AdaptiveColorMapper *)

(** C1.  The claim asks for the median of a signed subset without
    repeated value.  On the deltas 0, 10, 20, 30 (and their opposites)
    the program takes the first of the modes pandas returns, all three
    values in ascending order, so the positive reference is 10 (the
    negative one -30) while the medians are 20 and -20. *)
Theorem C1_reference_is_first_mode_not_median :
  Series.mode [10; 20; 30] = [10; 20; 30] /\
  vmax [0; 10; 20; 30] = Val 10 /\
  Series.median (positive_values [0; 10; 20; 30]) = Val 20 /\
  vmin [0; -10; -20; -30] = Val (-30) /\
  Series.median (negative_values [0; -10; -20; -30]) = Val (-20).
Proof. repeat split; reflexivity. Qed.

(** *** Comparisons *)

Lemma Qlt_bool_iff (x y : Q) : Qlt_bool x y = true <-> x < y.
Proof.
  unfold Qlt_bool. rewrite negb_true_iff. split; intro H.
  - apply Qnot_le_lt. intro Hle. apply Qle_bool_iff in Hle. congruence.
  - destruct (Qle_bool y x) eqn:E; [|reflexivity].
    apply Qle_bool_iff in E. exfalso. exact (Qlt_not_le _ _ H E).
Qed.

Lemma Qlt_bool_false_iff (x y : Q) : Qlt_bool x y = false <-> y <= x.
Proof.
  unfold Qlt_bool. rewrite negb_false_iff. apply Qle_bool_iff.
Qed.

(** *** The modes of a series are values of the series *)

Lemma empty_false (values : list Q) : values <> [] -> Series.empty values = false.
Proof. destruct values; [congruence|reflexivity]. Qed.

Lemma empty_true (values : list Q) : values = [] -> Series.empty values = true.
Proof. intros ->. reflexivity. Qed.

Lemma In_insert (x y : Q) (l : list Q) :
  In x (Series.insert y l) <-> x = y \/ In x l.
Proof.
  induction l as [|z l IH]; simpl.
  - intuition.
  - destruct (Qle_bool y z); simpl; rewrite ?IH; intuition.
Qed.

Lemma In_sort (x : Q) (l : list Q) : In x (Series.sort l) <-> In x l.
Proof.
  induction l as [|y l IH]; simpl; [tauto|].
  rewrite In_insert, IH. intuition.
Qed.

Lemma sort_length (l : list Q) : List.length (Series.sort l) = List.length l.
Proof.
  assert (Hins : forall x s, List.length (Series.insert x s) = S (List.length s)).
  { intros x s. induction s as [|y s IH]; simpl; [reflexivity|].
    destruct (Qle_bool x y); simpl; congruence. }
  induction l as [|y l IH]; simpl; [reflexivity|].
  rewrite Hins, IH. reflexivity.
Qed.

Lemma In_unique (x : Q) (l : list Q) : In x (Series.unique l) -> In x l.
Proof.
  induction l as [|y l IH]; simpl; [tauto|].
  intros [H|H]; [now left|].
  apply filter_In in H. right. apply IH, H.
Qed.

Lemma list_max_attained (l : list nat) : l <> [] -> In (list_max l) l.
Proof.
  induction l as [|a l IH]; [congruence|]. intros _.
  destruct l as [|b l].
  - left. simpl. lia.
  - change (list_max (a :: b :: l)) with (Nat.max a (list_max (b :: l))).
    destruct (Nat.max_spec a (list_max (b :: l))) as [[_ E]|[_ E]]; rewrite E.
    + right. apply IH. congruence.
    + now left.
Qed.

Lemma mode_nonempty (values : list Q) : values <> [] -> Series.mode values <> [].
Proof.
  intros Hne. unfold Series.mode.
  assert (Hmax : In (Series.max_count values)
                    (map (fun x => Series.count x values) values)).
  { apply list_max_attained. destruct values; simpl; congruence. }
  apply in_map_iff in Hmax. destruct Hmax as [x [Hx Hin]].
  set (modes := filter _ values).
  assert (Hm : In x modes).
  { apply filter_In. split; [exact Hin|]. now apply Nat.eqb_eq. }
  intro Hnil. apply (f_equal (@List.length Q)) in Hnil.
  rewrite sort_length in Hnil.
  destruct modes as [|y ms]; [inversion Hm|]. simpl in Hnil. discriminate.
Qed.

Lemma mode_In (x : Q) (values : list Q) : In x (Series.mode values) -> In x values.
Proof.
  unfold Series.mode. intro H.
  apply In_sort, In_unique, filter_In in H. apply H.
Qed.

Lemma get_mode_pd_nonempty (values : list Q) :
  values <> [] -> exists m, get_mode_pd values = Some m /\ In m values.
Proof.
  intro Hne. unfold get_mode_pd.
  destruct values as [|v vs] eqn:E; [congruence|]. simpl Series.empty. cbv iota.
  pose proof (mode_nonempty (v :: vs) Hne) as Hm.
  destruct (Series.mode (v :: vs)) as [|m ms] eqn:Em; [congruence|].
  exists m. split; [reflexivity|]. apply mode_In. rewrite Em. now left.
Qed.

(** *** A series without repeated value: the mode is the smallest value *)

Lemma filter_all {A : Type} (f : A -> bool) (l : list A) :
  (forall x, In x l -> f x = true) -> filter f l = l.
Proof.
  induction l as [|a l IH]; intro H; simpl; [reflexivity|].
  rewrite (H a) by now left. f_equal. apply IH. intros x Hx. apply H. now right.
Qed.

Lemma filter_none {A : Type} (f : A -> bool) (l : list A) :
  (forall x, In x l -> f x = false) -> filter f l = [].
Proof.
  induction l as [|a l IH]; intro H; simpl; [reflexivity|].
  rewrite (H a) by now left. apply IH. intros x Hx. apply H. now right.
Qed.

Lemma Qeq_bool_fresh (a : Q) (l : list Q) :
  ~ InA Qeq a l -> forall y, In y l -> Qeq_bool a y = false.
Proof.
  intros Ha y Hy. destruct (Qeq_bool a y) eqn:E; [|reflexivity].
  exfalso. apply Ha. apply InA_alt. exists y. split; [now apply Qeq_bool_eq|exact Hy].
Qed.

Lemma count_no_repeat (values : list Q) :
  NoDupA Qeq values -> forall x, In x values -> Series.count x values = 1%nat.
Proof.
  unfold Series.count. induction 1 as [|a l Ha Hl IH]; intros x Hx; [inversion Hx|].
  cbn [filter]. destruct Hx as [<-|Hx].
  - rewrite (proj2 (Qeq_bool_iff a a) (Qeq_refl a)).
    rewrite (filter_none _ l (Qeq_bool_fresh a l Ha)). reflexivity.
  - destruct (Qeq_bool x a) eqn:E; [|now apply IH].
    exfalso. apply Ha. apply InA_alt. exists x.
    split; [symmetry; now apply Qeq_bool_eq|exact Hx].
Qed.

Lemma list_max_ones {A : Type} (l : list A) :
  l <> [] -> list_max (map (fun _ => 1%nat) l) = 1%nat.
Proof.
  induction l as [|a l IH]; [congruence|]. intros _.
  destruct l as [|b l]; [reflexivity|].
  change (Nat.max 1 (list_max (map (fun _ => 1%nat) (b :: l))) = 1%nat).
  rewrite IH by congruence. reflexivity.
Qed.

Lemma unique_no_repeat (values : list Q) : NoDupA Qeq values -> Series.unique values = values.
Proof.
  induction 1 as [|a l Ha Hl IH]; [reflexivity|].
  cbn [Series.unique]. rewrite IH. f_equal. apply filter_all.
  intros y Hy. now rewrite (Qeq_bool_fresh a l Ha y Hy).
Qed.

Lemma mode_no_repeat (values : list Q) :
  NoDupA Qeq values -> Series.mode values = Series.sort values.
Proof.
  intro Hnd. unfold Series.mode.
  destruct values as [|v vs] eqn:E; [reflexivity|]. rewrite <- E in *.
  assert (Hmax : Series.max_count values = 1%nat).
  { unfold Series.max_count.
    rewrite (map_ext_in _ (fun _ => 1%nat)) by (intros x Hx; now apply count_no_repeat).
    apply list_max_ones. rewrite E. discriminate. }
  rewrite filter_all.
  - now rewrite unique_no_repeat.
  - intros x Hx. rewrite Hmax, (count_no_repeat values Hnd x Hx). reflexivity.
Qed.

Lemma sort_head_least (values : list Q) :
  match Series.sort values with
  | [] => values = []
  | m :: _ => forall y, In y values -> m <= y
  end.
Proof.
  induction values as [|a l IH]; [reflexivity|].
  cbn [Series.sort fold_right]. fold (Series.sort l).
  destruct (Series.sort l) as [|m r]; cbn [Series.insert].
  - subst l. intros y [<-|[]]. apply Qle_refl.
  - destruct (Qle_bool a m) eqn:E.
    + apply Qle_bool_iff in E. intros y [<-|Hy]; [apply Qle_refl|].
      apply Qle_trans with m; [exact E|now apply IH].
    + intros y [<-|Hy]; [|now apply IH].
      apply Qlt_le_weak, Qlt_bool_iff. unfold Qlt_bool. now rewrite E.
Qed.

(** What [get_mode_pd] returns on a non-empty series in which no value
    occurs twice: its smallest value. *)
Lemma get_mode_pd_no_repeat (values : list Q) :
  values <> [] -> NoDupA Qeq values ->
  exists m, get_mode_pd values = Some m /\ In m values /\
            forall y, In y values -> m <= y.
Proof.
  intros Hne Hnd. destruct (get_mode_pd_nonempty values Hne) as [m [Hm Hin]].
  exists m. split; [exact Hm|]. split; [exact Hin|].
  unfold get_mode_pd in Hm. rewrite (empty_false values Hne) in Hm.
  rewrite (mode_no_repeat values Hnd) in Hm.
  pose proof (sort_head_least values) as Hs.
  destruct (Series.sort values) as [|m' r]; [discriminate|].
  injection Hm as ->. exact Hs.
Qed.

(** *** The references of the two signed subsets *)

Lemma positive_values_In (d : Q) (rate_change : list Q) :
  In d (positive_values rate_change) <-> In d rate_change /\ 0 < d.
Proof. unfold positive_values. rewrite filter_In, Qlt_bool_iff. tauto. Qed.

Lemma negative_values_In (d : Q) (rate_change : list Q) :
  In d (negative_values rate_change) <-> In d rate_change /\ d < 0.
Proof. unfold negative_values. rewrite filter_In, Qlt_bool_iff. tauto. Qed.

Lemma pos_mode_positive (rate_change : list Q) :
  positive_values rate_change <> [] ->
  exists m, pos_mode rate_change = Val m /\ In m rate_change /\ 0 < m.
Proof.
  intro Hne. destruct (get_mode_pd_nonempty _ Hne) as [m [Hm Hin]].
  apply positive_values_In in Hin. destruct Hin as [Hin Hpos].
  exists m. repeat split; try assumption.
  unfold pos_mode. rewrite Hm. simpl.
  destruct (Qeq_bool m 0) eqn:E; [|reflexivity].
  apply Qeq_bool_eq in E. rewrite E in Hpos. exfalso. exact (Qlt_irrefl _ Hpos).
Qed.

Lemma neg_mode_negative (rate_change : list Q) :
  negative_values rate_change <> [] ->
  exists m, neg_mode rate_change = Val m /\ In m rate_change /\ m < 0.
Proof.
  intro Hne. destruct (get_mode_pd_nonempty _ Hne) as [m [Hm Hin]].
  apply negative_values_In in Hin. destruct Hin as [Hin Hneg].
  exists m. repeat split; try assumption.
  unfold neg_mode. rewrite Hm. simpl.
  destruct (Qeq_bool m 0) eqn:E; [|reflexivity].
  apply Qeq_bool_eq in E. rewrite E in Hneg. exfalso. exact (Qlt_irrefl _ Hneg).
Qed.

(** C2.  When the deltas hold a strictly positive and a strictly
    negative value, both references are numbers and
    [vmin <= 0 <= vmax]; when no delta is negative [vmin] is the minimum
    of all deltas, and when none is positive [vmax] is their maximum. *)
Theorem C2_normalization_range (rate_change : list Q) :
  ((exists p, In p rate_change /\ 0 < p) ->
   (exists n, In n rate_change /\ n < 0) ->
   exists lo hi, vmin rate_change = Val lo /\ vmax rate_change = Val hi /\
                 lo <= 0 /\ 0 <= hi) /\
  ((forall d, In d rate_change -> ~ d < 0) ->
   vmin rate_change = Series.min rate_change) /\
  ((forall d, In d rate_change -> ~ 0 < d) ->
   vmax rate_change = Series.max rate_change).
Proof.
  split; [|split].
  - intros [p [Hp Hp0]] [n [Hn Hn0]].
    assert (Hpos : positive_values rate_change <> []).
    { intro E. assert (H : In p (positive_values rate_change))
        by (apply positive_values_In; tauto). rewrite E in H. inversion H. }
    assert (Hneg : negative_values rate_change <> []).
    { intro E. assert (H : In n (negative_values rate_change))
        by (apply negative_values_In; tauto). rewrite E in H. inversion H. }
    destruct (pos_mode_positive _ Hpos) as [hi [Hhi [_ Hhi0]]].
    destruct (neg_mode_negative _ Hneg) as [lo [Hlo [_ Hlo0]]].
    exists lo, hi. unfold vmin, vmax.
    rewrite (empty_false _ Hpos), (empty_false _ Hneg). simpl.
    repeat split; try assumption; now apply Qlt_le_weak.
  - intro Hnone. unfold vmin.
    rewrite empty_true; [reflexivity|].
    destruct (negative_values rate_change) as [|d ds] eqn:E; [reflexivity|].
    exfalso. assert (H : In d (negative_values rate_change)) by (rewrite E; now left).
    apply negative_values_In in H. exact (Hnone d (proj1 H) (proj2 H)).
  - intro Hnone. unfold vmax.
    rewrite empty_true; [reflexivity|].
    destruct (positive_values rate_change) as [|d ds] eqn:E; [reflexivity|].
    exfalso. assert (H : In d (positive_values rate_change)) by (rewrite E; now left).
    apply positive_values_In in H. exact (Hnone d (proj1 H) (proj2 H)).
Qed.

Lemma C2_normalization_range_witness :
  (exists lo hi, vmin [0; 20; -40; 0] = Val lo /\ vmax [0; 20; -40; 0] = Val hi /\
                 lo <= 0 /\ 0 <= hi) /\
  vmin [0; 5; 5] = Series.min [0; 5; 5] /\
  vmax [0; -3] = Series.max [0; -3].
Proof.
  split; [|split].
  - apply (proj1 (C2_normalization_range [0; 20; -40; 0])).
    + exists 20. split; [simpl; tauto|reflexivity].
    + exists (-40). split; [simpl; tauto|reflexivity].
  - apply (proj1 (proj2 (C2_normalization_range [0; 5; 5]))).
    intros d [<-|[<-|[<-|[]]]]; unfold Qlt; simpl; lia.
  - apply (proj2 (proj2 (C2_normalization_range [0; -3]))).
    intros d [<-|[<-|[]]]; unfold Qlt; simpl; lia.
Defined.

(** ** The mask of the heat map *)

Lemma nth_map_seq {A : Type} (f : nat -> A) (n i : nat) (d : A) :
  (i < n)%nat -> nth i (map f (seq 0 n)) d = f i.
Proof.
  intro Hi. rewrite (nth_indep _ d (f O)) by (rewrite length_map, length_seq; exact Hi).
  rewrite map_nth, seq_nth by exact Hi. reflexivity.
Qed.

Lemma nth_enumerate_map {A B : Type} (g : nat * A -> B) (l : list A) (i : nat) (d : B) (a : A) :
  (i < List.length l)%nat ->
  nth i (map g (combine (seq 0 (List.length l)) l)) d = g (i, nth i l a).
Proof.
  intro Hi.
  rewrite (nth_indep _ d (g (O, a)))
    by (rewrite length_map, length_combine, length_seq, Nat.min_id; exact Hi).
  rewrite map_nth, combine_nth by (now rewrite length_seq).
  rewrite seq_nth by exact Hi. reflexivity.
Qed.

Lemma triu_ones_nth (n i j : nat) :
  (i < n)%nat -> (j < n)%nat -> nth j (nth i (triu_ones n) []) false = (i <=? j)%nat.
Proof.
  intros Hi Hj. unfold triu_ones.
  rewrite (nth_map_seq _ n i) by exact Hi.
  now rewrite nth_map_seq.
Qed.

Lemma triu_ones_length (n : nat) : List.length (triu_ones n) = n.
Proof. unfold triu_ones. now rewrite length_map, length_seq. Qed.

Lemma triu_ones_row_length (n i : nat) :
  (i < n)%nat -> List.length (nth i (triu_ones n) []) = n.
Proof.
  intro Hi. unfold triu_ones. rewrite (nth_map_seq _ n i) by exact Hi.
  now rewrite length_map, length_seq.
Qed.

Lemma fill_diagonal_nth (mask : list (list bool)) (v : bool) (i j : nat) :
  (i < List.length mask)%nat -> (j < List.length (nth i mask []))%nat ->
  nth j (nth i (fill_diagonal mask v) []) false
  = if Nat.eqb i j then v else nth j (nth i mask []) false.
Proof.
  intros Hi Hj. unfold fill_diagonal.
  rewrite (nth_enumerate_map _ mask i [] []) by exact Hi.
  rewrite (nth_enumerate_map _ (nth i mask []) j false false) by exact Hj.
  reflexivity.
Qed.

(** C8.  With the mask-upper-triangle flag set, the cells above the
    diagonal are hidden and those below are shown; a diagonal cell is
    hidden exactly when the show-diagonal flag is SET, the reverse of
    what the flag is documented to do. *)
Theorem C8_diagonal_hidden_when_flag_set (n i j : nat) (diagonal : bool) :
  (i < n)%nat -> (j < n)%nat ->
  hidden (make_mask n true diagonal) i j = ((i <? j)%nat || (Nat.eqb i j && diagonal))%bool.
Proof.
  intros Hi Hj. unfold make_mask, hidden. destruct diagonal; cbn [negb].
  - rewrite triu_ones_nth by assumption.
    destruct (Nat.eqb_spec i j), (Nat.ltb_spec i j), (Nat.leb_spec i j); simpl; try reflexivity; lia.
  - rewrite fill_diagonal_nth.
    + rewrite triu_ones_nth by assumption.
      destruct (Nat.eqb_spec i j), (Nat.ltb_spec i j), (Nat.leb_spec i j);
        simpl; try reflexivity; lia.
    + now rewrite triu_ones_length.
    + now rewrite triu_ones_row_length.
Qed.

Lemma C8_diagonal_hidden_when_flag_set_witness :
  hidden (make_mask 2 true false) 0 0 = false /\
  hidden (make_mask 2 true true) 0 0 = true /\
  hidden (make_mask 2 true false) 0 1 = true.
Proof.
  split; [|split].
  - apply (C8_diagonal_hidden_when_flag_set 2 0 0 false); lia.
  - apply (C8_diagonal_hidden_when_flag_set 2 0 0 true); lia.
  - apply (C8_diagonal_hidden_when_flag_set 2 0 1 false); lia.
Defined.

(** ** LabelDeclutterer: stride and number of labels *)

Lemma label_loop_stride (interval : Z) (bars : list Q) :
  forall idx seen_values l,
    In l (label_loop interval idx bars seen_values) ->
    (lab_idx l mod interval = 0)%Z /\ (idx <= lab_idx l < idx + Z.of_nat (List.length bars))%Z.
Proof.
  induction bars as [|v bars IH]; intros idx seen_values l Hl; [inversion Hl|].
  cbn [label_loop] in Hl. cbn [List.length]. rewrite Nat2Z.inj_succ.
  destruct (idx mod interval =? 0)%Z eqn:E; cbn [negb] in Hl.
  - destruct (seen v seen_values).
    + apply IH in Hl. intuition lia.
    + destruct Hl as [<-|Hl].
      * simpl. apply Z.eqb_eq in E. lia.
      * apply IH in Hl. intuition lia.
  - apply IH in Hl. intuition lia.
Qed.

(** C4.  Twenty-three bars and [max_bar_labels = 5]: the stride is
    [max(1, 23 // 5) = 4], the bars 0, 4, 8, 12, 16, 20 pass the stride
    test, and since their values differ all six are labelled, one more
    than the maximum the parameter is documented to be. *)
Theorem C4_six_labels_for_a_maximum_of_five :
  label_interval 23 5 = Ok 4%Z /\
  candidate_indices 4 23 = [0; 4; 8; 12; 16; 20]%Z /\
  exists labels,
    bar_labels (Series.diff_fillna0 series23) 5 = Ok labels /\
    map lab_idx labels = [0; 4; 8; 12; 16; 20]%Z /\
    (5 < Z.of_nat (List.length labels))%Z.
Proof.
  split; [reflexivity|]. split; [reflexivity|].
  eexists. split; [vm_compute; reflexivity|]. split; [reflexivity|]. simpl. lia.
Qed.

(** ** The override first_rate *)

Lemma preprocess_first_rate (df : DataFrame) (plot_df : list row) (r1 r2 : Q) :
  fst (preprocess df plot_df r1) = fst (preprocess df plot_df r2).
Proof.
  unfold preprocess.
  destruct (negb (has_rate_change df)); [|reflexivity].
  destruct (0 <? List.length plot_df)%nat; [|reflexivity].
  destruct (Qeq_bool r1 0), (Qeq_bool r2 0); reflexivity.
Qed.

Lemma compute_rate_chart_first_rate (df : DataFrame) (max_bar_labels : Z) (r1 r2 : Q) :
  compute_rate_chart df max_bar_labels r1 = compute_rate_chart df max_bar_labels r2.
Proof.
  unfold compute_rate_chart.
  pose proof (preprocess_first_rate df (sort_values (rows df)) r1 r2) as H.
  destruct (preprocess df (sort_values (rows df)) r1) as [rc1 f1].
  destruct (preprocess df (sort_values (rows df)) r2) as [rc2 f2].
  simpl in H. subst rc2. reflexivity.
Qed.

(** C10.  Two calls that differ only in [first_rate] return the same
    image (the same deltas, colours, labels, callouts and ticks), raise
    the same exception if they raise, and leave pyplot and the files in
    the same state. *)
Theorem C10_first_rate_has_no_effect
        (df : DataFrame) (max_bar_labels : Z) (output_file : option string)
        (r1 r2 : Q) (w : world) :
  plot_rate_changes df max_bar_labels r1 output_file w
  = plot_rate_changes df max_bar_labels r2 output_file w.
Proof.
  unfold plot_rate_changes.
  rewrite (compute_rate_chart_first_rate df max_bar_labels r1 r2). reflexivity.
Qed.

(** ** Saving the chart to a file *)

Lemma truthy_path (path : string) : path <> ""%string -> truthy (Some path) = true.
Proof.
  intro H. unfold truthy. apply negb_true_iff. now apply String.eqb_neq.
Qed.

(** C9.  With an output path, [plot_rate_changes] closes its figure
    before the second [savefig]; pyplot then opens a new blank figure,
    and that one is written to the path, at 150 dpi, whatever the data.
    The blob returned is the chart at 100 dpi: the two differ. *)
Theorem C9_file_holds_a_blank_figure
        (df : DataFrame) (max_bar_labels : Z) (first_rate : Q) (path : string)
        (w : world) (chart : rate_chart) :
  path <> ""%string ->
  compute_rate_chart df max_bar_labels first_rate = Ok chart ->
  exists w',
    plot_rate_changes df max_bar_labels first_rate (Some path) w
    = (Ok {| img_figure := [RateArt chart]; img_dpi := 100 |}, w') /\
    read_file (files w') path = Some {| img_figure := blank; img_dpi := 150 |} /\
    read_file (files w') path <> Some {| img_figure := [RateArt chart]; img_dpi := 100 |}.
Proof.
  intros Hpath Hchart. eexists.
  unfold plot_rate_changes, when_file. rewrite (truthy_path path Hpath).
  unfold seq_plt, lift, close_all, new_figure, draw, savefig_buffer, savefig_file,
    close, gcf, seq_plt, ret.
  rewrite Hchart. cbn.
  split; [reflexivity|]. cbn. rewrite String.eqb_refl.
  split; [reflexivity|]. discriminate.
Qed.

Lemma C9_file_holds_a_blank_figure_witness :
  exists chart w',
    plot_rate_changes sample_df 15 0 (Some "rate.png"%string) empty_world
    = (Ok {| img_figure := [RateArt chart]; img_dpi := 100 |}, w') /\
    read_file (files w') "rate.png" = Some {| img_figure := blank; img_dpi := 150 |} /\
    read_file (files w') "rate.png" <> Some {| img_figure := [RateArt chart]; img_dpi := 100 |}.
Proof.
  eexists.
  apply (C9_file_holds_a_blank_figure sample_df 15 0 "rate.png" empty_world).
  - discriminate.
  - vm_compute. reflexivity.
Defined.

(** The heat map does the same: its figure is closed before the second
    [savefig], so the file receives the figure that was current before
    the call, or a new blank one when none was open. *)
Lemma heatmap_file_is_another_figure
      (corr : table -> string -> outcome corr_frame) (uniform : nat -> ndarray)
      (data : table) (method : string) (mask_half diagonal : bool) (path : string)
      (w : world) :
  path <> ""%string ->
  exists panel w',
    generate_correlation_heatmap corr uniform data method mask_half diagonal (Some path) w
    = (Ok {| img_figure := [HeatArt panel]; img_dpi := 150 |}, w') /\
    read_file (files w') path = Some {| img_figure := hd blank (figs w); img_dpi := 150 |}.
Proof.
  intro Hpath.
  unfold generate_correlation_heatmap, corr_or_fallback, when_file.
  rewrite (truthy_path path Hpath).
  unfold seq_plt, random_uniform, new_figure, draw, savefig_buffer, savefig_file,
    close, gcf, seq_plt, ret.
  destruct (corr data method) as [c|e]; cbn; destruct (figs w) as [|f fs]; cbn;
    eexists; eexists; (split; [reflexivity|]); cbn; now rewrite String.eqb_refl.
Qed.

(** ** CorrelationEngine: failures of the correlation routine *)

Lemma returns_ret {A : Type} (a : A) : returns (ret a).
Proof. intro w. now exists a, w. Qed.

Lemma returns_seq {A B : Type} (m : plt A) (k : A -> plt B) :
  returns m -> (forall a, returns (k a)) -> returns (seq_plt m k).
Proof.
  intros Hm Hk w. destruct (Hm w) as [a [w1 E1]]. destruct (Hk a w1) as [b [w2 E2]].
  exists b, w2. unfold seq_plt. now rewrite E1.
Qed.

Lemma returns_gcf : returns gcf.
Proof. intro w. unfold gcf. destruct (figs w); eexists; eexists; reflexivity. Qed.

Lemma returns_new_figure : returns new_figure.
Proof. intro w. eexists; eexists; reflexivity. Qed.

Lemma returns_close : returns close.
Proof. intro w. eexists; eexists; reflexivity. Qed.

Lemma returns_draw (a : artwork) : returns (draw a).
Proof.
  apply returns_seq; [apply returns_gcf|]. intros f w. eexists; eexists; reflexivity.
Qed.

Lemma returns_savefig_buffer (dpi : Z) : returns (savefig_buffer dpi).
Proof. apply returns_seq; [apply returns_gcf|]. intro f. apply returns_ret. Qed.

Lemma returns_savefig_file (path : string) (dpi : Z) : returns (savefig_file path dpi).
Proof.
  apply returns_seq; [apply returns_gcf|]. intros f w. eexists; eexists; reflexivity.
Qed.

Lemma returns_when_file (output_file : option string) (k : string -> plt unit) :
  (forall path, returns (k path)) -> returns (when_file output_file k).
Proof.
  intro Hk. unfold when_file. destruct output_file as [path|]; [|apply returns_ret].
  destruct (truthy (Some path)); [apply Hk|apply returns_ret].
Qed.

Create HintDb plt_returns.

#[local] Hint Resolve returns_ret returns_gcf returns_new_figure returns_close
  returns_draw returns_savefig_buffer returns_savefig_file : plt_returns.

Section CorrelationFacts.

Variable corr : table -> string -> outcome corr_frame.
Variable uniform : nat -> ndarray.

Lemma returns_corr_or_fallback (data : table) (method : string) :
  returns (corr_or_fallback corr uniform data method).
Proof.
  unfold corr_or_fallback. destruct (corr data method) as [c|e].
  - apply returns_ret.
  - apply returns_seq; [|intro; apply returns_ret].
    intro w. eexists; eexists; reflexivity.
Qed.

(** The single heat map catches the failure: it always returns an
    image, drawn from the computed matrix or from the placeholder. *)
Lemma generate_correlation_heatmap_returns
      (data : table) (method : string) (mask_half diagonal : bool)
      (output_file : option string) :
  returns (generate_correlation_heatmap corr uniform data method mask_half diagonal
                                        output_file).
Proof.
  unfold generate_correlation_heatmap.
  apply returns_seq; [apply returns_corr_or_fallback|]. intro c.
  repeat (apply returns_seq; [auto with plt_returns|intro]).
  - apply returns_when_file. auto with plt_returns.
  - apply returns_ret.
Qed.

Lemma per_method_returns (filtered_data : table) (methods : list string)
      (output_file : option string) :
  forall result_images,
    returns (per_method corr uniform filtered_data methods output_file result_images).
Proof.
  induction methods as [|method rest IH]; intro result_images; cbn [per_method].
  - apply returns_ret.
  - apply returns_seq; [apply generate_correlation_heatmap_returns|]. intro img. apply IH.
Qed.

(** The panels of the combined figure call the routine again, outside
    any handler: if it raises for one method, the loop raises. *)
Lemma combined_panels_raises (filtered_data : table) (methods : list string)
      (method : string) (e : exn) :
  In method methods -> corr filtered_data method = Raise e ->
  forall w, exists e' w', combined_panels corr filtered_data methods w = (Raise e', w').
Proof.
  intros Hin Hraise. induction methods as [|m rest IH]; [inversion Hin|].
  intro w. cbn [combined_panels]. unfold seq_plt at 1, lift at 1.
  destruct (corr filtered_data m) as [c|e0] eqn:E.
  - destruct Hin as [->|Hin]; [congruence|].
    unfold seq_plt at 1.
    destruct (returns_draw
                (HeatArt {| panel_corr := c;
                            panel_mask := Some (triu_ones (List.length (cf_values c)));
                            panel_method := m |}) w) as [u [w1 E1]].
    rewrite E1. apply (IH Hin).
  - now exists e0, w.
Qed.

(** C3.  [generate_advanced_correlation_heatmap] with two methods or
    more: when the correlation routine raises for one of them, the
    first loop replaces each failure by the placeholder matrix, but
    the loop of the combined figure does not, and the exception
    reaches the caller. *)
Theorem C3_combined_figure_propagates_the_failure
        (data filtered_data : table) (target_variables : list string)
        (methods : list string) (output_file : option string)
        (method : string) (e : exn) (w : world) :
  select data target_variables = Ok filtered_data ->
  (1 < List.length methods)%nat ->
  In method methods ->
  corr filtered_data method = Raise e ->
  exists e' w',
    generate_advanced_correlation_heatmap corr uniform data (Some target_variables)
                                          (Some methods) output_file w
    = (Raise e', w').
Proof.
  intros Hsel Hlen Hin Hraise.
  unfold generate_advanced_correlation_heatmap.
  unfold seq_plt at 1, lift at 1. rewrite Hsel.
  unfold seq_plt at 1.
  destruct (per_method_returns filtered_data methods output_file [] w) as [imgs [w1 E1]].
  rewrite E1.
  apply Nat.ltb_lt in Hlen. rewrite Hlen.
  unfold seq_plt at 1, new_figure at 1.
  unfold seq_plt at 1.
  match goal with
  | |- context [combined_panels corr filtered_data methods ?w0] =>
      destruct (combined_panels_raises filtered_data methods method e Hin Hraise w0)
        as [e' [w2 E2]]
  end.
  rewrite E2. now exists e', w2.
Qed.

End CorrelationFacts.

Lemma C3_combined_figure_propagates_the_failure_witness :
  exists e' w',
    generate_advanced_correlation_heatmap
      corr_raises draws_zero text_table (Some ["name"; "score"]%string)
      (Some ["pearson"; "spearman"]%string) None empty_world
    = (Raise e', w').
Proof.
  apply (C3_combined_figure_propagates_the_failure
           corr_raises draws_zero text_table text_table ["name"; "score"]%string
           ["pearson"; "spearman"]%string None "pearson"%string ValueError empty_world).
  - reflexivity.
  - simpl. lia.
  - simpl. tauto.
  - reflexivity.
Defined.

(** ** TickSampler *)

Lemma floor_sample (i d s : Z) (p : positive) :
  Qfloor (inject_Z i * (inject_Z d / inject_Z (Zpos p)) + inject_Z s)
  = (i * d / Zpos p + s)%Z.
Proof.
  assert (E : inject_Z i * (inject_Z d / inject_Z (Zpos p)) + inject_Z s
              == (i * d + s * Zpos p) # p).
  { unfold Qeq, Qdiv, Qinv, Qmult, Qplus, inject_Z. simpl.
    rewrite Pos.mul_1_r. ring. }
  rewrite E. unfold Qfloor. apply Z.div_add. lia.
Qed.

(** The samples in closed form: sample [i] of [num] is
    [i * (stop - start) // (num - 1) + start], the last one included. *)
Lemma linspace_int_closed (start stop : Z) (div : nat) :
  (0 < div)%nat ->
  linspace_int start stop (S div)
  = map (fun i => (Z.of_nat i * (stop - start) / Z.of_nat div + start)%Z) (seq 0 (S div)).
Proof.
  intro Hdiv. unfold linspace_int. destruct div as [|div']; [lia|].
  set (div := S div'). rewrite (seq_S div 0), map_app. cbn [map Nat.add].
  f_equal.
  - apply map_ext. intro i.
    replace (Z.of_nat div) with (Zpos (Pos.of_succ_nat div')) by (unfold div; lia).
    apply floor_sample.
  - f_equal. rewrite Z.mul_comm, Z.div_mul by (unfold div; lia). lia.
Qed.

Lemma sample_increasing (d div i j : Z) :
  (0 < div <= d)%Z -> (0 <= i < j)%Z -> (i * d / div < j * d / div)%Z.
Proof.
  intros Hd Hij.
  assert (H : (i * d / div + (j - i) <= j * d / div)%Z).
  { rewrite <- Z.div_add by lia. apply Z.div_le_mono; [lia|]. nia. }
  lia.
Qed.

(** C7.  For a series of N >= 2 points the ticks are the min(N, 10)
    indices [i * (N - 1) // (min(N, 10) - 1)], pairwise distinct, from 0
    to N - 1 inclusive; for N <= 1 the function returns before setting
    any tick. *)
Theorem C7_ticks (times : list Z) :
  let n := List.length times in
  ((2 <= n)%nat ->
   exists t,
     set_smart_ticks times = Some t /\
     tick_indices t
     = map (fun i => (Z.of_nat i * (Z.of_nat n - 1) / (Z.of_nat (Nat.min n 10) - 1))%Z)
           (seq 0 (Nat.min n 10)) /\
     List.length (tick_indices t) = Nat.min n 10 /\
     NoDup (tick_indices t) /\
     hd 0%Z (tick_indices t) = 0%Z /\
     last (tick_indices t) 0%Z = (Z.of_nat n - 1)%Z /\
     (forall x, In x (tick_indices t) -> (0 <= x <= Z.of_nat n - 1)%Z)) /\
  ((n <= 1)%nat -> set_smart_ticks times = None).
Proof.
  intro n. split.
  - intro Hn. unfold set_smart_ticks. fold n.
    destruct (Nat.leb_spec n 1) as [Hle|_]; [lia|].
    eexists. split; [reflexivity|]. cbn [tick_indices].
    destruct (Nat.min n 10) as [|div] eqn:Ek; [lia|].
    assert (Hdiv : (0 < div)%nat) by lia.
    assert (Hdn : (Z.of_nat div <= Z.of_nat n - 1)%Z) by lia.
    rewrite (linspace_int_closed 0 (Z.of_nat n - 1) div Hdiv).
    set (f := fun i : nat => (Z.of_nat i * (Z.of_nat n - 1 - 0) / Z.of_nat div + 0)%Z).
    assert (Hf : forall i, f i = (Z.of_nat i * (Z.of_nat n - 1) / (Z.of_nat (S div) - 1))%Z).
    { intro i. unfold f. rewrite Z.sub_0_r, Z.add_0_r. do 2 f_equal. lia. }
    assert (Hmono : forall i j, (i < j)%nat -> (f i < f j)%Z).
    { intros i j Hij. rewrite !Hf.
      replace (Z.of_nat (S div) - 1)%Z with (Z.of_nat div) by lia.
      apply sample_increasing; lia. }
    assert (Hlast : f div = (Z.of_nat n - 1)%Z).
    { unfold f. rewrite Z.sub_0_r, Z.add_0_r, Z.mul_comm. apply Z.div_mul. lia. }
    assert (Hfirst : f O = 0%Z) by reflexivity.
    split; [apply map_ext; exact Hf|].
    split; [now rewrite length_map, length_seq|].
    split.
    { apply NoDup_map_NoDup_ForallPairs; [|apply seq_NoDup].
      intros i j _ _ E.
      destruct (Nat.lt_trichotomy i j) as [H|[H|H]]; [|exact H|].
      - apply Hmono in H. lia.
      - apply Hmono in H. lia. }
    split; [reflexivity|].
    split.
    { rewrite seq_S, map_app. cbn [map Nat.add]. rewrite last_last. exact Hlast. }
    intros x Hx. apply in_map_iff in Hx. destruct Hx as [i [<- Hi]].
    apply in_seq in Hi.
    assert (H0 : (f O <= f i)%Z).
    { destruct i; [lia|]. apply Z.lt_le_incl, Hmono. lia. }
    assert (H1 : (f i <= f div)%Z).
    { destruct (Nat.eq_dec i div) as [->|Hne]; [lia|]. apply Z.lt_le_incl, Hmono. lia. }
    lia.
  - intro Hn. unfold set_smart_ticks. fold n.
    destruct (Nat.leb_spec n 1) as [_|Hgt]; [reflexivity|lia].
Qed.

Lemma C7_ticks_witness :
  (exists t,
     set_smart_ticks (map Z.of_nat (seq 0 23)) = Some t /\
     tick_indices t = [0; 2; 4; 7; 9; 12; 14; 17; 19; 22]%Z /\
     List.length (tick_indices t) = 10%nat /\
     NoDup (tick_indices t) /\
     hd 0%Z (tick_indices t) = 0%Z /\
     last (tick_indices t) 0%Z = 22%Z /\
     (forall x, In x (tick_indices t) -> (0 <= x <= 22)%Z)) /\
  set_smart_ticks [7%Z] = None.
Proof.
  split.
  - apply (proj1 (C7_ticks (map Z.of_nat (seq 0 23)))). simpl. lia.
  - apply (proj2 (C7_ticks [7%Z])). simpl. lia.
Defined.

(** ** LabelDeclutterer: repeated values *)

Lemma seen_false (v : Q) (seen_values : list Q) :
  seen v seen_values = false -> forall s, In s seen_values -> ~ v == s.
Proof.
  unfold seen. intros H s Hs E.
  assert (Ht : existsb (Qeq_bool v) seen_values = true).
  { apply existsb_exists. exists s. split; [exact Hs|]. now apply Qeq_bool_iff. }
  congruence.
Qed.

Lemma seen_true (v : Q) (seen_values : list Q) :
  (exists s, In s seen_values /\ v == s) -> seen v seen_values = true.
Proof.
  intros [s [Hs E]]. unfold seen. apply existsb_exists.
  exists s. split; [exact Hs|]. now apply Qeq_bool_iff.
Qed.

(** Every label the loop emits carries a value that was not in the set
    when the loop started, and no two labels carry the same value. *)
Lemma label_loop_fresh (interval : Z) (bars : list Q) :
  forall idx seen_values,
    (forall l, In l (label_loop interval idx bars seen_values) ->
               forall s, In s seen_values -> ~ lab_value l == s) /\
    NoDupA Qeq (map lab_value (label_loop interval idx bars seen_values)).
Proof.
  induction bars as [|v bars IH]; intros idx seen_values; cbn [label_loop].
  - split; [intros l []|constructor].
  - destruct (negb (idx mod interval =? 0)%Z); [apply IH|].
    destruct (seen v seen_values) eqn:Eseen; [apply IH|].
    destruct (IH (idx + 1)%Z (v :: seen_values)) as [Hfresh Hnodup].
    split.
    + intros l [<-|Hl] s Hs.
      * simpl. exact (seen_false _ _ Eseen s Hs).
      * apply (Hfresh l Hl). now right.
    + cbn [map]. constructor; [|exact Hnodup].
      intro Hin. apply InA_alt in Hin. destruct Hin as [y [Ey Hy]].
      apply in_map_iff in Hy. destruct Hy as [l [<- Hl]].
      apply (Hfresh l Hl v); [now left|]. simpl in Ey. now symmetry.
Qed.

(** C5, as the program has it.  No two labels of a chart, adjacent or
    not, carry the same rate change; the comparison is on the values,
    not on the one-decimal texts shown. *)
Theorem C5_labelled_values_are_distinct
        (rate_change : list Q) (max_bar_labels : Z) (labels : list bar_label) :
  bar_labels rate_change max_bar_labels = Ok labels ->
  NoDupA Qeq (map lab_value labels).
Proof.
  unfold bar_labels, label_interval.
  destruct (max_bar_labels =? 0)%Z; cbn [bind]; [discriminate|].
  intro H. injection H as <-. apply label_loop_fresh.
Qed.

Lemma C5_labelled_values_are_distinct_witness :
  NoDupA Qeq (map lab_value
                  [make_label 0 0; make_label 1 (1520 - 1500); make_label 2 (1480 - 1520)]).
Proof.
  apply (C5_labelled_values_are_distinct
           (Series.diff_fillna0 [1500; 1520; 1480; 1480]) 15).
  reflexivity.
Defined.

(** C5, as the claim states it, fails: three games a 64th of a point
    apart give the changes 0, 1/64 and 1/32, three different values, and
    three labels next to each other that all read 0.0. *)
Lemma C5_adjacent_labels_with_the_same_text :
  ~ (forall rate_change max_bar_labels labels,
        bar_labels rate_change max_bar_labels = Ok labels ->
        adjacent_repeat (map lab_text labels) = false).
Proof.
  intro H.
  specialize (H (Series.diff_fillna0 series_close) 15%Z _ eq_refl).
  vm_compute in H. discriminate H.
Qed.

Example series_close_labels :
  exists labels,
    bar_labels (Series.diff_fillna0 series_close) 15 = Ok labels /\
    map lab_idx labels = [0; 1; 2]%Z /\
    map lab_text labels = ["0.0"; "0.0"; "0.0"]%string.
Proof. eexists. split; [reflexivity|]. split; reflexivity. Qed.

(** ** Series of one point and constant series *)

Lemma fold_pick_In (choose : Q -> Q -> bool) (rest : list Q) :
  forall x, In (fold_left (fun m y => if choose m y then y else m) rest x) (x :: rest).
Proof.
  induction rest as [|y rest IH]; intro x; cbn [fold_left]; [now left|].
  destruct (choose x y).
  - right. apply IH.
  - destruct (IH x) as [H|H]; [now left|right; now right].
Qed.

Lemma max_In (values : list Q) (m : Q) : Series.max values = Val m -> In m values.
Proof.
  destruct values as [|x rest]; [discriminate|]. intro H. injection H as <-.
  apply (fold_pick_In (fun m y => Qlt_bool m y)).
Qed.

Lemma min_In (values : list Q) (m : Q) : Series.min values = Val m -> In m values.
Proof.
  destruct values as [|x rest]; [discriminate|]. intro H. injection H as <-.
  apply (fold_pick_In (fun m y => Qlt_bool y m)).
Qed.

Lemma extrema_constant (rates : list Q) : constant rates -> extrema_annotations rates = [].
Proof.
  intro Hc. unfold extrema_annotations.
  destruct (1 <? List.length rates)%nat; [|reflexivity].
  destruct (Series.max rates) as [|hi] eqn:Ehi; [reflexivity|].
  destruct (Series.min rates) as [|lo] eqn:Elo; [reflexivity|].
  assert (E : hi == lo) by (apply Hc; [now apply max_In|now apply min_In]).
  assert (Hle : hi - lo <= 0) by (rewrite E; unfold Qminus; rewrite Qplus_opp_r; apply Qle_refl).
  apply Qlt_bool_false_iff in Hle. now rewrite Hle.
Qed.

Lemma diff_from_constant (rest : list Q) :
  forall prev, (forall y, In y rest -> y == prev) ->
               forall d, In d (Series.diff_from prev rest) -> d == 0.
Proof.
  induction rest as [|x rest IH]; intros prev Hc d Hd; [inversion Hd|].
  cbn [Series.diff_from] in Hd. destruct Hd as [<-|Hd].
  - rewrite (Hc x) by now left. unfold Qminus. apply Qplus_opp_r.
  - apply (IH x); [|exact Hd]. intros y Hy.
    rewrite (Hc y) by now right. symmetry. apply Hc. now left.
Qed.

Lemma label_loop_all_seen (interval : Z) (bars seen_values : list Q) :
  (forall d, In d bars -> seen d seen_values = true) ->
  forall idx, label_loop interval idx bars seen_values = [].
Proof.
  induction bars as [|v bars IH]; intros Hseen idx; cbn [label_loop]; [reflexivity|].
  rewrite (Hseen v) by now left.
  rewrite IH by (intros d Hd; apply Hseen; now right).
  now destruct (negb (idx mod interval =? 0)%Z).
Qed.

Lemma length_one_constant (rates : list Q) : (List.length rates <= 1)%nat -> constant rates.
Proof.
  destruct rates as [|x [|y rest]]; simpl; intros H a b Ha Hb; try lia.
  - inversion Ha.
  - destruct Ha as [<-|[]], Hb as [<-|[]]. apply Qeq_refl.
Qed.

(** C6, as the program has it.  For a series of at most one point or
    a constant series, and a label budget other than zero, nothing
    raises; no extremum is annotated; the empty series gets no bar
    label, and any other such series gets exactly one, on bar 0, for
    the change 0. *)
Theorem C6_short_or_constant_series (rates : list Q) (max_bar_labels : Z) :
  max_bar_labels <> 0%Z ->
  (List.length rates <= 1)%nat \/ constant rates ->
  extrema_annotations rates = [] /\
  bar_labels (Series.diff_fillna0 rates) max_bar_labels
  = Ok (match rates with [] => [] | _ :: _ => [make_label 0 0] end).
Proof.
  intros Hm Hshape.
  assert (Hc : constant rates).
  { destruct Hshape as [H|H]; [now apply length_one_constant|exact H]. }
  split; [now apply extrema_constant|].
  unfold bar_labels, label_interval.
  apply Z.eqb_neq in Hm. rewrite Hm. cbn [bind].
  destruct rates as [|x rest]; [reflexivity|].
  cbn [Series.diff_fillna0 label_loop seen existsb].
  set (interval := Z.max 1 _).
  assert (Hint : (0 mod interval =? 0)%Z = true) by (rewrite Z.mod_0_l; [reflexivity|lia]).
  rewrite Hint. cbn [negb]. do 2 f_equal.
  apply label_loop_all_seen. intros d Hd. apply seen_true.
  exists 0. split; [now left|].
  apply (diff_from_constant rest x); [|exact Hd].
  intros y Hy. apply Hc; [now right|now left].
Qed.

Lemma C6_short_or_constant_series_witness :
  (extrema_annotations [1500] = [] /\
   bar_labels (Series.diff_fillna0 [1500]) 15 = Ok [make_label 0 0]) /\
  (extrema_annotations [1500; 1500; 1500] = [] /\
   bar_labels (Series.diff_fillna0 [1500; 1500; 1500]) 15 = Ok [make_label 0 0]) /\
  (extrema_annotations [] = [] /\
   bar_labels (Series.diff_fillna0 []) 15 = Ok []).
Proof.
  split; [|split].
  - apply (C6_short_or_constant_series [1500] 15); [lia|left; simpl; lia].
  - apply (C6_short_or_constant_series [1500; 1500; 1500] 15); [lia|right].
    intros x y [<-|[<-|[<-|[]]]] [<-|[<-|[<-|[]]]]; reflexivity.
  - apply (C6_short_or_constant_series [] 15); [lia|left; simpl; lia].
Defined.

(** C6, as the claim states it, fails: a series of one point gets a
    bar label. *)
Lemma C6_one_point_gets_a_label :
  ~ (forall rates max_bar_labels,
        (List.length rates <= 1)%nat \/ constant rates ->
        extrema_annotations rates = [] /\
        bar_labels (Series.diff_fillna0 rates) max_bar_labels = Ok []).
Proof.
  intro H. destruct (H [1500] 15%Z) as [_ H1]; [left; simpl; lia|].
  discriminate H1.
Qed.

(** ** The placeholder matrix *)

Lemma fill_ones_spec (n : nat) (a : ndarray) (i j : nat) :
  fill_ones n a i j = if (Nat.eqb i j && (i <? n)%nat)%bool then 1 else a i j.
Proof.
  unfold fill_ones. induction n as [|n IH].
  - simpl. now rewrite andb_false_r.
  - rewrite seq_S, fold_left_app. cbn [fold_left Nat.add]. unfold set_item at 1.
    rewrite IH.
    destruct (Nat.eqb_spec n i), (Nat.eqb_spec n j), (Nat.eqb_spec i j),
      (Nat.ltb_spec i n), (Nat.ltb_spec i (S n)); simpl; try reflexivity; lia.
Qed.

Lemma symmetrize_row_spec (i len : nat) (a : ndarray) :
  forall r c,
    fold_left (fun a j => set_item a j i (a i j)) (seq (S i) len) a r c
    = if (Nat.eqb c i && (i <? r)%nat && (r <? S i + len)%nat)%bool then a i r else a r c.
Proof.
  induction len as [|len IH]; intros r c.
  - simpl. destruct (Nat.eqb c i), (Nat.ltb_spec i r), (Nat.ltb_spec r (S (i + 0)));
      simpl; try reflexivity; lia.
  - rewrite seq_S, fold_left_app. cbn [fold_left]. unfold set_item at 1.
    rewrite !IH. rewrite Nat.ltb_irrefl, andb_false_r. cbn [andb].
    destruct (Nat.eqb_spec (S i + len) r), (Nat.eqb_spec i c), (Nat.eqb_spec c i),
      (Nat.ltb_spec i r), (Nat.ltb_spec r (S i + len)), (Nat.ltb_spec r (S i + S len));
      simpl; try reflexivity; try lia.
    now subst.
Qed.

Lemma symmetrize_prefix_spec (n k : nat) (a : ndarray) :
  (k <= n)%nat ->
  forall r c,
    fold_left (fun a i =>
                 fold_left (fun a j => set_item a j i (a i j)) (seq (S i) (n - S i)) a)
              (seq 0 k) a r c
    = if ((c <? r)%nat && (c <? k)%nat && (r <? n)%nat)%bool then a c r else a r c.
Proof.
  induction k as [|k IH]; intros Hk r c.
  - simpl. now rewrite andb_false_r.
  - rewrite seq_S, fold_left_app. cbn [fold_left Nat.add].
    rewrite symmetrize_row_spec. rewrite !IH by lia.
    destruct (Nat.eqb_spec c k), (Nat.ltb_spec k r), (Nat.ltb_spec r (S k + (n - S k))),
      (Nat.ltb_spec c r), (Nat.ltb_spec c k), (Nat.ltb_spec c (S k)), (Nat.ltb_spec r n),
      (Nat.ltb_spec r k), (Nat.ltb_spec k k);
      simpl; try reflexivity; try lia.
    now subst.
Qed.

Lemma symmetrize_spec (n : nat) (a : ndarray) (r c : nat) :
  (r < n)%nat -> (c < n)%nat ->
  symmetrize n a r c = if (c <? r)%nat then a c r else a r c.
Proof.
  intros Hr Hc. unfold symmetrize. rewrite symmetrize_prefix_spec by lia.
  destruct (Nat.ltb_spec c r), (Nat.ltb_spec c n), (Nat.ltb_spec r n);
    simpl; try reflexivity; lia.
Qed.

(** The matrix of the except branch: the labels of the table on both
    axes, n rows of n numbers, 1 on the diagonal, the number drawn for
    the cell above the diagonal in both cells of each symmetric pair. *)
Lemma fallback_corr_valid (data : table) (draws : ndarray) :
  let n := List.length (columns data) in
  let c := fallback_corr data draws in
  cf_index c = columns data /\
  cf_columns c = columns data /\
  List.length (cf_values c) = n /\
  (forall i, (i < n)%nat -> List.length (nth i (cf_values c) []) = n) /\
  (forall i, (i < n)%nat -> entry c i i = Val 1) /\
  (forall i j, (i < j)%nat -> (j < n)%nat ->
               entry c i j = Val (draws i j) /\ entry c j i = Val (draws i j)).
Proof.
  intros n c.
  assert (Hentry : forall i j, (i < n)%nat -> (j < n)%nat ->
                               entry c i j = Val (symmetrize n (fill_ones n draws) i j)).
  { intros i j Hi Hj. unfold entry, c, fallback_corr, to_values. cbn [cf_values]. fold n.
    rewrite (nth_map_seq _ n i) by exact Hi. now rewrite nth_map_seq. }
  split; [reflexivity|]. split; [reflexivity|].
  split; [unfold c, fallback_corr, to_values; cbn [cf_values]; now rewrite length_map, length_seq|].
  split.
  { intros i Hi. unfold c, fallback_corr, to_values. cbn [cf_values]. fold n.
    rewrite (nth_map_seq _ n i) by exact Hi. now rewrite length_map, length_seq. }
  split.
  - intros i Hi. rewrite Hentry by assumption. rewrite symmetrize_spec by assumption.
    rewrite Nat.ltb_irrefl, fill_ones_spec, Nat.eqb_refl.
    apply Nat.ltb_lt in Hi. now rewrite Hi.
  - intros i j Hij Hj. rewrite !Hentry by lia. rewrite !symmetrize_spec by lia.
    rewrite !fill_ones_spec.
    destruct (Nat.ltb_spec j i), (Nat.ltb_spec i j), (Nat.eqb_spec i j);
      simpl; try lia. split; reflexivity.
Qed.

(** * Further properties of the two chart modules and their callers *)

(** ** The colours of the bars *)









Lemma map_outcome_ok {A B : Type} (f : A -> outcome B) (g : A -> B) (l : list A) :
  (forall x, In x l -> f x = Ok (g x)) -> map_outcome f l = Ok (map g l).
Proof.
  induction l as [|x l IH]; intro H; cbn [map_outcome map]; [reflexivity|].
  rewrite (H x) by now left. cbn [bind]. rewrite IH by (intros y Hy; apply H; now right).
  reflexivity.
Qed.

Lemma bar_colors_map (rate_change : list Q) (a b : Q) :
  vmin rate_change = Val a -> vmax rate_change = Val b -> a <= b ->
  bar_colors rate_change = Ok (map (bar_color a b) rate_change).
Proof.
  intros Ha Hb Hab. unfold bar_colors. rewrite Ha, Hb.
  apply map_outcome_ok. intros d _. unfold color_norm, bar_color.
  destruct (Qeq_bool a b); [reflexivity|].
  apply Qlt_bool_false_iff in Hab. rewrite Hab. reflexivity.
Qed.




Lemma scaled_le (a b d1 d2 : Q) :
  a < b -> d1 <= d2 -> (d1 - a) / (b - a) * 256 <= (d2 - a) / (b - a) * 256.
Proof.
  intros Hab Hd.
  assert (Hpos : 0 < b - a) by (unfold Qminus; rewrite <- Qlt_minus_iff; exact Hab).
  apply Qmult_le_compat_r; [|discriminate].
  apply Qmult_le_compat_r.
  - unfold Qminus. apply Qplus_le_compat; [exact Hd|apply Qle_refl].
  - apply Qlt_le_weak, Qinv_lt_0_compat, Hpos.
Qed.

Lemma bar_color_monotone (a b d1 d2 : Q) :
  a < b -> d1 <= d2 -> (bar_color a b d1 <= bar_color a b d2)%Z.
Proof.
  intros Hab Hd. unfold bar_color.
  destruct (Qeq_bool a b); [lia|]. unfold RdYlGn.
  pose proof (Qfloor_resp_le _ _ (scaled_le a b d1 d2 Hab Hd)). lia.
Qed.

Lemma Qeq_bool_lt (a b : Q) : a < b -> Qeq_bool a b = false.
Proof.
  intro H. destruct (Qeq_bool a b) eqn:E; [|reflexivity].
  apply Qeq_bool_eq in E. rewrite E in H. exfalso. exact (Qlt_irrefl _ H).
Qed.

Lemma bar_color_top (a b d : Q) : a < b -> b <= d -> bar_color a b d = 255%Z.
Proof.
  intros Hab Hd. unfold bar_color. rewrite (Qeq_bool_lt a b Hab). unfold RdYlGn.
  assert (H : (b - a) / (b - a) * 256 <= (d - a) / (b - a) * 256) by now apply scaled_le.
  assert (Hpos : 0 < b - a) by (unfold Qminus; rewrite <- Qlt_minus_iff; exact Hab).
  assert (E : (b - a) / (b - a) * 256 == inject_Z 256).
  { unfold Qdiv. rewrite Qmult_inv_r; [reflexivity|].
    intro E0. rewrite E0 in Hpos. exact (Qlt_irrefl _ Hpos). }
  rewrite E in H. apply Qfloor_resp_le in H. rewrite Qfloor_Z in H. lia.
Qed.

Lemma bar_color_bottom (a b d : Q) : a < b -> d <= a -> bar_color a b d = 0%Z.
Proof.
  intros Hab Hd. unfold bar_color. rewrite (Qeq_bool_lt a b Hab). unfold RdYlGn.
  assert (H : (d - a) / (b - a) * 256 <= (a - a) / (b - a) * 256) by now apply scaled_le.
  assert (E : (a - a) / (b - a) * 256 == inject_Z 0).
  { unfold Qminus at 1. rewrite Qplus_opp_r. unfold Qdiv. rewrite !Qmult_0_l. reflexivity. }
  rewrite E in H. apply Qfloor_resp_le in H. rewrite Qfloor_Z in H. lia.
Qed.

(** On a scale with [vmin < vmax], a larger rate change never gets a
    colour earlier in the red-to-green table; a change at or beyond
    [vmax] gets the last colour and one at or below [vmin] the first:
    outliers saturate instead of stretching the scale. *)
Theorem bar_colors_monotone_and_saturated
        (rate_change : list Q) (colors : list Z) (a b : Q) :
  bar_colors rate_change = Ok colors ->
  vmin rate_change = Val a -> vmax rate_change = Val b -> a < b ->
  forall i, (i < List.length rate_change)%nat ->
    (forall j, (j < List.length rate_change)%nat ->
               nth i rate_change 0 <= nth j rate_change 0 ->
               (nth i colors 0 <= nth j colors 0)%Z) /\
    (b <= nth i rate_change 0 -> nth i colors 0%Z = 255%Z) /\
    (nth i rate_change 0 <= a -> nth i colors 0%Z = 0%Z).
Proof.
  intros Hc Ha Hb Hab i Hi.
  rewrite (bar_colors_map rate_change a b Ha Hb (Qlt_le_weak _ _ Hab)) in Hc.
  injection Hc as <-.
  assert (Hnth : forall k, (k < List.length rate_change)%nat ->
                           nth k (map (bar_color a b) rate_change) 0%Z
                           = bar_color a b (nth k rate_change 0)).
  { intros k Hk. rewrite (nth_indep _ 0%Z (bar_color a b 0)) by now rewrite length_map.
    apply map_nth. }
  rewrite (Hnth i Hi). split; [|split].
  - intros j Hj Hle. rewrite (Hnth j Hj). now apply bar_color_monotone.
  - now apply bar_color_top.
  - now apply bar_color_bottom.
Qed.

Lemma bar_colors_monotone_and_saturated_witness :
  (forall j, (j < 5)%nat -> nth 1 [0; 20; -40; 0; 100] 0 <= nth j [0; 20; -40; 0; 100] 0 ->
             (nth 1 [170; 255; 0; 170; 255] 0 <= nth j [170; 255; 0; 170; 255] 0)%Z) /\
  (20 <= nth 1 [0; 20; -40; 0; 100] 0 -> nth 1 [170; 255; 0; 170; 255]%Z 0%Z = 255%Z) /\
  (nth 1 [0; 20; -40; 0; 100] 0 <= -40 -> nth 1 [170; 255; 0; 170; 255]%Z 0%Z = 0%Z).
Proof.
  apply (bar_colors_monotone_and_saturated [0; 20; -40; 0; 100] [170; 255; 0; 170; 255]%Z
                                           (-40) 20).
  - reflexivity.
  - reflexivity.
  - reflexivity.
  - reflexivity.
  - simpl. lia.
Defined.

(** ** plot_rate_changes as a whole *)










(** ** The bar labels: what each one is and how many there are *)

Lemma label_loop_content (interval : Z) (bars : list Q) :
  forall idx seen_values l,
    In l (label_loop interval idx bars seen_values) ->
    l = make_label (lab_idx l) (nth (Z.to_nat (lab_idx l - idx)) bars 0).
Proof.
  induction bars as [|v bars IH]; intros idx seen_values l Hl; [inversion Hl|].
  cbn [label_loop] in Hl.
  assert (Hrest : forall s, In l (label_loop interval (idx + 1) bars s) ->
                            l = make_label (lab_idx l) (nth (Z.to_nat (lab_idx l - idx)) (v :: bars) 0)).
  { intros s Hs. pose proof (label_loop_stride _ _ _ _ _ Hs) as [_ Hrange].
    rewrite (IH _ _ _ Hs) at 1. f_equal.
    replace (Z.to_nat (lab_idx l - idx)) with (S (Z.to_nat (lab_idx l - (idx + 1)))) by lia.
    reflexivity. }
  destruct (negb (idx mod interval =? 0)%Z); [now apply (Hrest seen_values)|].
  destruct (seen v seen_values); [now apply (Hrest seen_values)|].
  destruct Hl as [<-|Hl]; [|now apply (Hrest (v :: seen_values))].
  cbn [lab_idx make_label]. now rewrite Z.sub_diag.
Qed.

Lemma label_loop_increasing (interval : Z) (bars : list Q) :
  forall idx seen_values,
    StronglySorted Z.lt (map lab_idx (label_loop interval idx bars seen_values)).
Proof.
  induction bars as [|v bars IH]; intros idx seen_values; cbn [label_loop]; [constructor|].
  destruct (negb (idx mod interval =? 0)%Z); [apply IH|].
  destruct (seen v seen_values); [apply IH|].
  cbn [map]. constructor; [apply IH|].
  apply Forall_forall. intros i Hi. apply in_map_iff in Hi. destruct Hi as [l [<- Hl]].
  apply label_loop_stride in Hl. cbn [lab_idx make_label]. lia.
Qed.

(** Every label sits on a bar whose position is a multiple of the
    stride, carries the rate change of that bar and its one-decimal
    text, above-aligned exactly for a gain; the labels follow the bars
    from left to right; and the first bar of a non-empty chart is always
    labelled. *)
Theorem bar_labels_content
        (rate_change : list Q) (max_bar_labels : Z) (labels : list bar_label) :
  bar_labels rate_change max_bar_labels = Ok labels ->
  let n := Z.of_nat (List.length rate_change) in
  let interval := Z.max 1 (n / max_bar_labels) in
  (forall l, In l labels ->
     (0 <= lab_idx l < n)%Z /\
     (lab_idx l mod interval = 0)%Z /\
     lab_value l = nth (Z.to_nat (lab_idx l)) rate_change 0 /\
     lab_text l = format_1f (lab_value l) /\
     (lab_va l = va_top <-> 0 < lab_value l)) /\
  StronglySorted Z.lt (map lab_idx labels) /\
  (rate_change <> [] ->
   exists rest, labels = make_label 0 (nth 0 rate_change 0) :: rest).
Proof.
  intros H n interval. unfold bar_labels, label_interval in H.
  destruct (max_bar_labels =? 0)%Z; cbn [bind] in H; [discriminate|].
  injection H as <-. change (Z.max 1 (Z.of_nat (List.length rate_change) / max_bar_labels))
    with interval.
  split; [|split].
  - intros l Hl. pose proof (label_loop_stride _ _ _ _ _ Hl) as [Hmod Hrange].
    pose proof (label_loop_content _ _ _ _ _ Hl) as Hc. rewrite Z.sub_0_r in Hc.
    split; [unfold n; lia|]. split; [exact Hmod|].
    rewrite Hc. cbn [lab_idx lab_value lab_text lab_va make_label].
    split; [reflexivity|]. split; [reflexivity|].
    destruct (Qlt_bool 0 (nth (Z.to_nat (lab_idx l)) rate_change 0)) eqn:E.
    + apply Qlt_bool_iff in E. tauto.
    + split; [discriminate|]. intro Hpos. apply Qlt_bool_iff in Hpos. congruence.
  - apply label_loop_increasing.
  - intro Hne. destruct rate_change as [|v rest]; [congruence|].
    cbn [label_loop seen existsb nth].
    assert (Hint : (0 mod interval =? 0)%Z = true)
      by (rewrite Z.mod_0_l; [reflexivity|unfold interval; lia]).
    rewrite Hint. cbn [negb]. eexists. reflexivity.
Qed.

Lemma bar_labels_content_witness :
  let labels := [make_label 0 0; make_label 1 (1520 - 1500); make_label 2 (1480 - 1520)] in
  let rate_change := Series.diff_fillna0 [1500; 1520; 1480; 1480] in
  (forall l, In l labels ->
     (0 <= lab_idx l < 4)%Z /\
     (lab_idx l mod 1 = 0)%Z /\
     lab_value l = nth (Z.to_nat (lab_idx l)) rate_change 0 /\
     lab_text l = format_1f (lab_value l) /\
     (lab_va l = va_top <-> 0 < lab_value l)) /\
  StronglySorted Z.lt (map lab_idx labels) /\
  (rate_change <> [] ->
   exists rest, labels = make_label 0 (nth 0 rate_change 0) :: rest).
Proof.
  apply (bar_labels_content (Series.diff_fillna0 [1500; 1520; 1480; 1480]) 15).
  reflexivity.
Defined.

Lemma ceil_step (interval idx : Z) :
  (0 < interval)%Z ->
  ((idx + interval - 1) / interval <= (idx + 1 + interval - 1) / interval)%Z /\
  ((idx mod interval = 0)%Z ->
   ((idx + 1 + interval - 1) / interval = (idx + interval - 1) / interval + 1)%Z).
Proof.
  intro Hi. split.
  - apply Z.div_le_mono; lia.
  - intro Hmod. pose proof (Z.div_mod idx interval) as Hdm.
    rewrite Hmod in Hdm.
    replace (idx + 1 + interval - 1)%Z with (idx + 1 * interval)%Z by lia.
    rewrite Z.div_add by lia.
    assert (E : ((idx + interval - 1) / interval = idx / interval)%Z).
    { symmetry. apply (Z.div_unique _ _ _ (interval - 1)); lia. }
    lia.
Qed.

Lemma label_loop_count (interval : Z) (bars : list Q) :
  (0 < interval)%Z ->
  forall idx seen_values,
    (Z.of_nat (List.length (label_loop interval idx bars seen_values))
     <= (idx + Z.of_nat (List.length bars) + interval - 1) / interval
        - (idx + interval - 1) / interval)%Z.
Proof.
  intro Hi. induction bars as [|v bars IH]; intros idx seen_values.
  - cbn [label_loop List.length]. rewrite Z.add_0_r. lia.
  - cbn [label_loop]. cbn [List.length]. rewrite Nat2Z.inj_succ.
    replace (idx + Z.succ (Z.of_nat (List.length bars)))%Z
      with (idx + 1 + Z.of_nat (List.length bars))%Z by lia.
    destruct (ceil_step interval idx Hi) as [Hmono Hstep].
    destruct (idx mod interval =? 0)%Z eqn:E; cbn [negb].
    + apply Z.eqb_eq in E. specialize (Hstep E).
      destruct (seen v seen_values).
      * specialize (IH (idx + 1)%Z seen_values). lia.
      * cbn [List.length]. rewrite Nat2Z.inj_succ.
        specialize (IH (idx + 1)%Z (v :: seen_values)). lia.
    + specialize (IH (idx + 1)%Z seen_values). lia.
Qed.

(** How many labels a chart can carry.  With N bars and stride
    [s = max(1, N // max_bar_labels)] there are at most ceil(N / s)
    labels.  For a budget of at least 1 this is always below twice the
    budget; it is within the budget when N does not exceed it or is a
    multiple of it. *)
Theorem bar_labels_count
        (rate_change : list Q) (max_bar_labels : Z) (labels : list bar_label) :
  bar_labels rate_change max_bar_labels = Ok labels ->
  let n := Z.of_nat (List.length rate_change) in
  let interval := Z.max 1 (n / max_bar_labels) in
  let count := Z.of_nat (List.length labels) in
  (count <= (n + interval - 1) / interval)%Z /\
  ((1 <= max_bar_labels)%Z ->
   (count <= 2 * max_bar_labels - 1)%Z /\
   ((n <= max_bar_labels)%Z \/ (n mod max_bar_labels = 0)%Z -> (count <= max_bar_labels)%Z)).
Proof.
  intros H n interval count. unfold bar_labels, label_interval in H.
  destruct (max_bar_labels =? 0)%Z; cbn [bind] in H; [discriminate|].
  injection H as H.
  assert (Hi : (0 < interval)%Z) by (unfold interval; lia).
  assert (Hcount : (count <= (n + interval - 1) / interval)%Z).
  { pose proof (label_loop_count interval rate_change Hi 0%Z []) as Hc.
    assert (H' : label_loop interval 0 rate_change [] = labels) by exact H.
    rewrite H' in Hc. fold n count in Hc.
    replace ((0 + interval - 1) / interval)%Z with 0%Z in Hc
      by (symmetry; apply Z.div_small; lia).
    rewrite Z.add_0_l, Z.sub_0_r in Hc. exact Hc. }
  split; [exact Hcount|]. intro Hm.
  assert (Hn : (0 <= n)%Z) by (unfold n; lia).
  pose proof (Z.div_mod n max_bar_labels ltac:(lia)) as Hdm.
  pose proof (Z.mod_pos_bound n max_bar_labels ltac:(lia)) as Hr.
  pose proof (Z.div_pos n max_bar_labels Hn ltac:(lia)) as Hq.
  set (q := (n / max_bar_labels)%Z) in *. set (r := (n mod max_bar_labels)%Z) in *.
  destruct (Z.eq_dec q 0) as [Hq0|Hq0].
  - assert (Ei : interval = 1%Z) by (unfold interval; fold q; lia).
    rewrite Ei in Hcount. rewrite Z.div_1_r in Hcount. split; [nia|]. intros _. nia.
  - assert (Ei : interval = q) by (unfold interval; fold q; lia).
    rewrite Ei in Hcount. split.
    + assert (Hlt : ((n + q - 1) / q < 2 * max_bar_labels)%Z).
      { apply Z.div_lt_upper_bound; [lia|]. nia. }
      lia.
    + intros [Hle|Hmod].
      * assert (Hq1 : q = 1%Z) by nia.
        rewrite Hq1 in Hcount. rewrite Z.div_1_r in Hcount. lia.
      * assert (En : n = (max_bar_labels * q)%Z) by lia.
        assert (Hlt : ((n + q - 1) / q < max_bar_labels + 1)%Z).
        { apply Z.div_lt_upper_bound; [lia|]. nia. }
        lia.
Qed.

Lemma bar_labels_count_witness :
  let count := Z.of_nat (List.length (label_loop 4 0 (Series.diff_fillna0 series23) [])) in
  (count <= (23 + 4 - 1) / 4)%Z /\
  ((1 <= 5)%Z ->
   (count <= 2 * 5 - 1)%Z /\
   ((23 <= 5)%Z \/ (23 mod 5 = 0)%Z -> (count <= 5)%Z)).
Proof.
  apply (bar_labels_count (Series.diff_fillna0 series23) 5). reflexivity.
Defined.

(** ** The extrema callouts *)

Section IdxBest.

Variable better : Q -> Q -> bool.
Variable below : Q -> Q -> Prop.
Hypothesis better_true : forall y best, better y best = true -> ~ below y best.
Hypothesis better_false : forall y best, better y best = false -> below y best.
Hypothesis below_trans : forall x y z, below x y -> below y z -> below x z.
Hypothesis below_total : forall x y, ~ below x y -> below y x.




End IdxBest.





(** ** The rows of the frame: order and running total *)

Lemma insert_row_perm (r : row) (sorted : list row) :
  Permutation (insert_row r sorted) (r :: sorted).
Proof.
  induction sorted as [|r' rest IH]; cbn [insert_row]; [apply Permutation_refl|].
  destruct (time r <=? time r')%Z; [apply Permutation_refl|].
  apply perm_trans with (r' :: r :: rest); [now apply perm_skip|apply perm_swap].
Qed.

Lemma sort_values_perm (rs : list row) : Permutation (sort_values rs) rs.
Proof.
  induction rs as [|r rs IH]; [apply Permutation_refl|].
  cbn [sort_values fold_right]. fold (sort_values rs).
  apply perm_trans with (r :: sort_values rs); [apply insert_row_perm|now apply perm_skip].
Qed.

Lemma insert_row_sorted (r : row) (sorted : list row) :
  StronglySorted time_le sorted -> StronglySorted time_le (insert_row r sorted).
Proof.
  induction 1 as [|r' rest Hs IH Hall]; cbn [insert_row].
  - constructor; constructor.
  - destruct (time r <=? time r')%Z eqn:E.
    + apply Z.leb_le in E. constructor; [now constructor|].
      constructor; [exact E|].
      apply Forall_forall. intros x Hx. rewrite Forall_forall in Hall.
      specialize (Hall x Hx). unfold time_le in *. lia.
    + apply Z.leb_gt in E. constructor; [exact IH|].
      apply Forall_forall. intros x Hx.
      apply (Permutation_in _ (insert_row_perm r rest)) in Hx.
      destruct Hx as [<-|Hx]; [unfold time_le; lia|].
      rewrite Forall_forall in Hall. now apply Hall.
Qed.

Lemma sort_values_sorted (rs : list row) : StronglySorted time_le (sort_values rs).
Proof.
  induction rs as [|r rs IH]; [constructor|].
  cbn [sort_values fold_right]. fold (sort_values rs). now apply insert_row_sorted.
Qed.

Lemma sorted_rows_unique (l1 : list row) :
  forall l2,
    StronglySorted time_le l1 -> StronglySorted time_le l2 ->
    Permutation l1 l2 -> NoDup (map time l1) -> l1 = l2.
Proof.
  induction l1 as [|a t1 IH]; intros l2 H1 H2 Hp Hnd.
  - apply Permutation_nil in Hp. now subst.
  - destruct l2 as [|b t2]; [apply Permutation_sym, Permutation_nil in Hp; discriminate|].
    inversion H1 as [|? ? Hs1 Ha]; subst. inversion H2 as [|? ? Hs2 Hb]; subst.
    cbn [map] in Hnd. inversion Hnd as [|? ? Hnotin Hnd']; subst.
    assert (Eab : a = b).
    { assert (Ha2 : In a (b :: t2)) by (apply (Permutation_in _ Hp); now left).
      destruct Ha2 as [E|Ha2]; [now symmetry|].
      assert (Hb1 : In b (a :: t1))
        by (apply (Permutation_in _ (Permutation_sym Hp)); now left).
      destruct Hb1 as [E|Hb1]; [exact E|].
      exfalso. apply Hnotin.
      rewrite Forall_forall in Ha, Hb. specialize (Ha b Hb1). specialize (Hb a Ha2).
      unfold time_le in *. replace (time a) with (time b) by lia.
      now apply in_map. }
    subst b. f_equal. apply IH; try assumption.
    now apply Permutation_cons_inv in Hp.
Qed.

(** When no two games start at the same instant, the chart does not
    depend on the order in which the rows of the frame are given. *)
Theorem plot_rate_changes_row_order
        (df1 df2 : DataFrame) (max_bar_labels : Z) (first_rate : Q)
        (output_file : option string) (w : world) :
  has_rate_change df1 = has_rate_change df2 ->
  Permutation (rows df1) (rows df2) ->
  NoDup (map time (rows df1)) ->
  plot_rate_changes df1 max_bar_labels first_rate output_file w
  = plot_rate_changes df2 max_bar_labels first_rate output_file w.
Proof.
  intros Hflag Hp Hnd.
  assert (Hsort : sort_values (rows df1) = sort_values (rows df2)).
  { apply sorted_rows_unique; try apply sort_values_sorted.
    - apply perm_trans with (rows df1); [apply sort_values_perm|].
      apply perm_trans with (rows df2); [exact Hp|apply Permutation_sym, sort_values_perm].
    - apply (Permutation_NoDup (l := map time (rows df1))); [|exact Hnd].
      apply Permutation_map, Permutation_sym, sort_values_perm. }
  unfold plot_rate_changes, compute_rate_chart, preprocess.
  rewrite Hsort, Hflag. reflexivity.
Qed.

Lemma plot_rate_changes_row_order_witness :
  plot_rate_changes sample_df 15 0 None empty_world
  = plot_rate_changes
      {| has_rate_change := false;
         rows := [ {| time := 1; rate := 1500; change := 0 |};
                   {| time := 2; rate := 1520; change := 0 |};
                   {| time := 3; rate := 1480; change := 0 |};
                   {| time := 4; rate := 1480; change := 0 |} ] |}
      15 0 None empty_world.
Proof.
  apply plot_rate_changes_row_order.
  - reflexivity.
  - cbn [rows sample_df].
    apply perm_trans with
      [ {| time := 1; rate := 1500; change := 0 |};
        {| time := 3; rate := 1480; change := 0 |};
        {| time := 2; rate := 1520; change := 0 |};
        {| time := 4; rate := 1480; change := 0 |} ];
      [apply perm_swap|apply perm_skip, perm_swap].
  - cbn [rows sample_df map time].
    repeat constructor; simpl; intuition discriminate.
Defined.




(** ** The heat maps: what is returned and what is left behind *)

Lemma world_eta (w : world) :
  {| figs := figs w; files := files w; rng_calls := rng_calls w |} = w.
Proof. now destruct w. Qed.

Lemma heatmap_run_ok
      (corr : table -> string -> outcome corr_frame) (uniform : nat -> ndarray)
      (data : table) (method : string) (mask_half diagonal : bool) (c : corr_frame)
      (w : world) :
  corr data method = Ok c ->
  generate_correlation_heatmap corr uniform data method mask_half diagonal None w
  = (Ok (heat_image c method mask_half diagonal), w).
Proof.
  intro Hc. unfold generate_correlation_heatmap, corr_or_fallback. rewrite Hc.
  unfold seq_plt, new_figure, draw, savefig_buffer, close, when_file, gcf, seq_plt, ret.
  cbn. now rewrite world_eta.
Qed.

Lemma heatmap_run_fallback
      (corr : table -> string -> outcome corr_frame) (uniform : nat -> ndarray)
      (data : table) (method : string) (mask_half diagonal : bool) (e : exn)
      (w : world) :
  corr data method = Raise e ->
  generate_correlation_heatmap corr uniform data method mask_half diagonal None w
  = (Ok (heat_image (fallback_corr data (uniform (rng_calls w))) method mask_half diagonal),
     {| figs := figs w; files := files w; rng_calls := S (rng_calls w) |}).
Proof.
  intro Hc. unfold generate_correlation_heatmap, corr_or_fallback. rewrite Hc.
  unfold seq_plt, random_uniform, new_figure, draw, savefig_buffer, close, when_file, gcf,
    seq_plt, ret.
  reflexivity.
Qed.

(** Without an output path, [generate_correlation_heatmap] always
    returns one image with one panel, at 150 dpi, and leaves the open
    figures and the files as it found them.  The panel shows the matrix
    of the correlation routine, or, when the routine raises, the
    placeholder built from the next random draw. *)
Theorem heatmap_returns_one_panel
        (corr : table -> string -> outcome corr_frame) (uniform : nat -> ndarray)
        (data : table) (method : string) (mask_half diagonal : bool) (w : world) :
  exists c w',
    generate_correlation_heatmap corr uniform data method mask_half diagonal None w
    = (Ok (heat_image c method mask_half diagonal), w') /\
    figs w' = figs w /\ files w' = files w /\
    match corr data method with
    | Ok computed => c = computed /\ rng_calls w' = rng_calls w
    | Raise _ => c = fallback_corr data (uniform (rng_calls w)) /\
                 rng_calls w' = S (rng_calls w)
    end.
Proof.
  destruct (corr data method) as [c|e] eqn:E.
  - exists c, w. rewrite (heatmap_run_ok _ _ _ _ _ _ _ _ E). auto.
  - eexists. eexists. rewrite (heatmap_run_fallback _ _ _ _ _ _ _ _ E).
    split; [reflexivity|]. cbn. auto.
Qed.

(** When the draws lie in [-1, 1], as those of
    [np.random.uniform(-1, 1, ...)] do, the placeholder is a well-formed
    correlation matrix: the labels of the table on both axes, a square
    of numbers in [-1, 1], symmetric, with 1 on the diagonal. *)
Theorem placeholder_is_well_formed (data : table) (draws : ndarray) :
  (forall i j, -1 <= draws i j <= 1) ->
  let n := List.length (columns data) in
  let c := fallback_corr data draws in
  cf_index c = columns data /\
  cf_columns c = columns data /\
  List.length (cf_values c) = n /\
  forall i j, (i < n)%nat -> (j < n)%nat ->
    List.length (nth i (cf_values c) []) = n /\
    entry c i i = Val 1 /\
    entry c i j = entry c j i /\
    exists q, entry c i j = Val q /\ -1 <= q <= 1.
Proof.
  intros Hd n c.
  destruct (fallback_corr_valid data draws) as [H1 [H2 [H3 [H4 [H5 H6]]]]].
  fold n c in H1, H2, H3, H4, H5, H6.
  split; [exact H1|]. split; [exact H2|]. split; [exact H3|].
  intros i j Hi Hj. split; [now apply H4|]. split; [now apply H5|].
  destruct (Nat.lt_trichotomy i j) as [Hlt|[->|Hgt]].
  - destruct (H6 i j Hlt Hj) as [E1 E2]. rewrite E1, E2.
    split; [reflexivity|]. exists (draws i j). split; [reflexivity|apply Hd].
  - split; [reflexivity|]. exists 1. rewrite H5 by assumption.
    split; [reflexivity|]. split; discriminate.
  - destruct (H6 j i Hgt Hi) as [E1 E2]. rewrite E1, E2.
    split; [reflexivity|]. exists (draws j i). split; [reflexivity|apply Hd].
Qed.

Lemma placeholder_is_well_formed_witness :
  let c := fallback_corr text_table (draws_zero 0) in
  cf_index c = ["name"; "score"]%string /\
  cf_columns c = ["name"; "score"]%string /\
  List.length (cf_values c) = 2%nat /\
  forall i j, (i < 2)%nat -> (j < 2)%nat ->
    List.length (nth i (cf_values c) []) = 2%nat /\
    entry c i i = Val 1 /\
    entry c i j = entry c j i /\
    exists q, entry c i j = Val q /\ -1 <= q <= 1.
Proof.
  apply (placeholder_is_well_formed text_table (draws_zero 0)).
  intros i j. unfold draws_zero. split; discriminate.
Defined.

(** ** generate_advanced_correlation_heatmap *)

Lemma dict_get_set_same {V : Type} (d : list (string * V)) (key : string) (v : V)
      (set : list (string * V) -> string -> V -> list (string * V)) :
  (forall d', set d' key v = match d' with
                             | [] => [(key, v)]
                             | (k, v0) :: rest => if String.eqb k key then (k, v) :: rest
                                                  else (k, v0) :: set rest key v
                             end) ->
  dict_get (set d key v) key = Some v.
Proof.
  intro Hset. induction d as [|[k v0] rest IH]; rewrite Hset.
  - cbn [dict_get]. now rewrite String.eqb_refl.
  - destruct (String.eqb k key) eqn:E; cbn [dict_get]; rewrite E; [reflexivity|exact IH].
Qed.

Lemma dict_set_unfold (d : list (string * image)) (key : string) (v : image) :
  dict_set d key v = match d with
                     | [] => [(key, v)]
                     | (k, v0) :: rest => if String.eqb k key then (k, v) :: rest
                                          else (k, v0) :: dict_set rest key v
                     end.
Proof. destruct d as [|[k v0] rest]; reflexivity. Qed.

Lemma dict_get_dict_set (d : list (string * image)) (key : string) (v : image) :
  dict_get (dict_set d key v) key = Some v.
Proof. apply dict_get_set_same. intro d'. apply dict_set_unfold. Qed.

Lemma dict_get_dict_set_other (d : list (string * image)) (key key' : string) (v : image) :
  key <> key' -> dict_get (dict_set d key v) key' = dict_get d key'.
Proof.
  intro Hne. induction d as [|[k v0] rest IH]; cbn [dict_set dict_get].
  - apply String.eqb_neq in Hne. now rewrite Hne.
  - destruct (String.eqb k key) eqn:E; cbn [dict_get].
    + apply String.eqb_eq in E. subst k.
      apply String.eqb_neq in Hne. now rewrite Hne.
    + destruct (String.eqb k key'); [reflexivity|exact IH].
Qed.

Lemma index_of_none (name : string) (names : list string) :
  index_of name names = None <-> existsb (String.eqb name) names = false.
Proof.
  induction names as [|x rest IH]; cbn [index_of existsb]; [tauto|].
  rewrite (String.eqb_sym name x).
  destruct (String.eqb x name); cbn [orb]; [split; discriminate|].
  rewrite <- IH. destruct (index_of name rest); cbn [option_map]; split; congruence.
Qed.

Lemma select_missing (data : table) (target_variables : list string) (v : string) :
  In v target_variables -> has_column data v = false ->
  select data target_variables = Raise KeyError.
Proof.
  intros Hin Hmiss. unfold select.
  assert (H : map_outcome (fun v => match index_of v (columns data) with
                                    | Some i => Ok i
                                    | None => Raise KeyError
                                    end) target_variables = Raise KeyError).
  { induction target_variables as [|x rest IH]; [inversion Hin|].
    cbn [map_outcome].
    destruct (index_of x (columns data)) as [i|] eqn:E; cbn [bind]; [|reflexivity].
    destruct Hin as [->|Hin].
    - apply index_of_none in Hmiss. unfold has_column in Hmiss. congruence.
    - now rewrite (IH Hin). }
  now rewrite H.
Qed.

Section AdvancedFacts.

Variable corr : table -> string -> outcome corr_frame.
Variable uniform : nat -> ndarray.

(** A column asked for and absent from the table: KeyError, before any
    figure is created or any random number drawn. *)
Theorem advanced_missing_column
        (data : table) (target_variables : list string) (methods : option (list string))
        (output_file : option string) (v : string) (w : world) :
  In v target_variables -> has_column data v = false ->
  generate_advanced_correlation_heatmap corr uniform data (Some target_variables) methods
                                        output_file w
  = (Raise KeyError, w).
Proof.
  intros Hin Hmiss. unfold generate_advanced_correlation_heatmap.
  unfold seq_plt at 1, lift at 1. now rewrite (select_missing data target_variables v Hin Hmiss).
Qed.

Lemma heatmap_run_any (data : table) (method : string) (w : world) :
  exists img w',
    generate_correlation_heatmap corr uniform data method true false None w = (Ok img, w') /\
    figs w' = figs w /\ files w' = files w.
Proof.
  destruct (corr data method) as [c|e] eqn:E.
  - exists (heat_image c method true false), w.
    now rewrite (heatmap_run_ok _ _ _ _ _ _ _ _ E).
  - eexists. eexists. rewrite (heatmap_run_fallback _ _ _ _ _ _ _ _ E).
    split; [reflexivity|]. split; reflexivity.
Qed.


End AdvancedFacts.

Lemma advanced_missing_column_witness :
  generate_advanced_correlation_heatmap corr_raises draws_zero text_table
                                        (Some ["name"; "rank"]%string) None None empty_world
  = (Raise KeyError, empty_world).
Proof.
  apply (advanced_missing_column corr_raises draws_zero text_table
                                 ["name"; "rank"]%string None None "rank"%string).
  - simpl. tauto.
  - reflexivity.
Defined.


Section AdvancedSuccess.

Variable corr : table -> string -> outcome corr_frame.
Variable uniform : nat -> ndarray.
Variable filtered_data : table.

Lemma per_method_all_ok (methods : list string) :
  (forall m, In m methods -> exists c, corr filtered_data m = Ok c) ->
  forall d w,
  exists d',
    per_method corr uniform filtered_data methods None d w = (Ok d', w) /\
    forall k,
      (In k methods -> forall c, corr filtered_data k = Ok c ->
                                 dict_get d' k = Some (heat_image c k true false)) /\
      (~ In k methods -> dict_get d' k = dict_get d k).
Proof.
  induction methods as [|m rest IH]; intros Hok d w.
  - exists d. split; [reflexivity|]. intro k. split; [intros []|reflexivity].
  - destruct (Hok m (or_introl eq_refl)) as [cm Hcm].
    cbn [per_method method_file]. unfold seq_plt at 1.
    rewrite (heatmap_run_ok corr uniform filtered_data m true false cm w Hcm).
    destruct (IH (fun k Hk => Hok k (or_intror Hk))
                 (dict_set d m (heat_image cm m true false)) w) as [d' [Hrun Hkeys]].
    exists d'. split; [exact Hrun|].
    intro k. destruct (Hkeys k) as [Hin Hout]. split.
    + intros Hk c Hc. destruct (in_dec string_dec k rest) as [Hr|Hr]; [now apply Hin|].
      destruct Hk as [->|Hk]; [|contradiction].
      rewrite (Hout Hr), dict_get_dict_set. congruence.
    + intro Hk. rewrite Hout by (intro; apply Hk; now right).
      apply dict_get_dict_set_other. intro E. apply Hk. now left.
Qed.

Lemma combined_panels_all_ok (methods : list string) :
  (forall m, In m methods -> exists c, corr filtered_data m = Ok c) ->
  forall f fs fl rc,
  exists arts,
    combined_panels corr filtered_data methods {| figs := f :: fs; files := fl; rng_calls := rc |}
    = (Ok tt, {| figs := (f ++ arts) :: fs; files := fl; rng_calls := rc |}) /\
    Forall2 (fun m art => exists c, corr filtered_data m = Ok c /\ art = combined_panel c m)
            methods arts.
Proof.
  induction methods as [|m rest IH]; intros Hok f fs fl rc.
  - exists []. rewrite app_nil_r. split; [reflexivity|constructor].
  - destruct (Hok m (or_introl eq_refl)) as [cm Hcm].
    cbn [combined_panels]. unfold seq_plt at 1, lift at 1. rewrite Hcm.
    unfold seq_plt at 1. unfold draw, seq_plt at 1, gcf at 1. cbn [figs files rng_calls tl].
    destruct (IH (fun k Hk => Hok k (or_intror Hk)) (f ++ [combined_panel cm m]) fs fl rc)
      as [arts [Hrun Hall]].
    exists (combined_panel cm m :: arts). split.
    + rewrite <- app_assoc in Hrun. exact Hrun.
    + constructor; [now exists cm|exact Hall].
Qed.

Lemma advanced_success_run
        (data : table) (target_variables methods : list string) (w : world) :
  select data target_variables = Ok filtered_data ->
  (2 <= List.length methods)%nat ->
  (forall m, In m methods -> exists c, corr filtered_data m = Ok c) ->
  exists result combined,
    generate_advanced_correlation_heatmap corr uniform data (Some target_variables)
                                          (Some methods) None w
    = (Ok result, w) /\
    dict_get result "combined" = Some combined /\
    img_dpi combined = 150%Z /\
    Forall2 (fun m art => exists c, corr filtered_data m = Ok c /\ art = combined_panel c m)
            methods (img_figure combined) /\
    forall m c, In m methods -> m <> "combined"%string -> corr filtered_data m = Ok c ->
                dict_get result m = Some (heat_image c m true false).
Proof.
  intros Hsel Hlen Hok. unfold generate_advanced_correlation_heatmap.
  unfold seq_plt at 1, lift at 1. rewrite Hsel.
  destruct (per_method_all_ok methods Hok [] w) as [d' [Hrun Hkeys]].
  unfold seq_plt at 1. rewrite Hrun.
  assert (Hltb : (1 <? List.length methods)%nat = true) by (apply Nat.ltb_lt; lia).
  rewrite Hltb.
  destruct w as [fg fl rc].
  unfold seq_plt at 1, new_figure at 1. cbn [figs files rng_calls].
  destruct (combined_panels_all_ok methods Hok blank fg fl rc) as [arts [Hc Hall]].
  unfold seq_plt at 1. rewrite Hc.
  unfold seq_plt, savefig_buffer, close, when_file, gcf, seq_plt, ret. cbn.
  eexists. eexists. split; [reflexivity|].
  split; [apply dict_get_dict_set|]. split; [reflexivity|]. split; [exact Hall|].
  intros m c Hm Hne Hcm.
  rewrite dict_get_dict_set_other by (intro E; apply Hne; now symmetry).
  now apply (proj1 (Hkeys m)).
Qed.

(** With two methods or more on which the correlation routine
    succeeds, the call returns a dict that holds, under 'combined', a
    figure with one panel per method, in the order of the methods, each
    drawn from that method's matrix; and, under each method's name
    (unless it is the word 'combined'), the single heat map of that
    method.  The open figures and the files are left untouched. *)
Theorem advanced_all_methods_succeed
        (data : table) (target_variables methods : list string) (w : world) :
  select data target_variables = Ok filtered_data ->
  (2 <= List.length methods)%nat ->
  (forall m, In m methods -> exists c, corr filtered_data m = Ok c) ->
  exists result combined,
    generate_advanced_correlation_heatmap corr uniform data (Some target_variables)
                                          (Some methods) None w
    = (Ok result, w) /\
    dict_get result "combined" = Some combined /\
    img_dpi combined = 150%Z /\
    Forall2 (fun m art => exists c, corr filtered_data m = Ok c /\ art = combined_panel c m)
            methods (img_figure combined) /\
    forall m c, In m methods -> m <> "combined"%string -> corr filtered_data m = Ok c ->
                dict_get result m = Some (heat_image c m true false).
Proof.
  intros Hsel Hlen Hok. unfold generate_advanced_correlation_heatmap.
  unfold seq_plt at 1, lift at 1. rewrite Hsel.
  destruct (per_method_all_ok methods Hok [] w) as [d' [Hrun Hkeys]].
  unfold seq_plt at 1. rewrite Hrun.
  assert (Hltb : (1 <? List.length methods)%nat = true) by (apply Nat.ltb_lt; lia).
  rewrite Hltb.
  destruct w as [fg fl rc].
  unfold seq_plt at 1, new_figure at 1. cbn [figs files rng_calls].
  destruct (combined_panels_all_ok methods Hok blank fg fl rc) as [arts [Hc Hall]].
  unfold seq_plt at 1. rewrite Hc.
  unfold seq_plt, savefig_buffer, close, when_file, gcf, seq_plt, ret. cbn.
  eexists. eexists. split; [reflexivity|].
  split; [apply dict_get_dict_set|]. split; [reflexivity|]. split; [exact Hall|].
  intros m c Hm Hne Hcm.
  rewrite dict_get_dict_set_other by (intro E; apply Hne; now symmetry).
  now apply (proj1 (Hkeys m)).
Qed.

End AdvancedSuccess.

Lemma advanced_all_methods_succeed_witness :
  exists result combined,
    generate_advanced_correlation_heatmap corr_identity draws_zero numeric_table
                                          (Some ["a"; "b"; "c"]%string)
                                          (Some ["pearson"; "spearman"]%string) None
                                          empty_world
    = (Ok result, empty_world) /\
    dict_get result "combined" = Some combined /\
    img_dpi combined = 150%Z /\
    Forall2 (fun m art => exists c, corr_identity numeric_table m = Ok c /\
                                    art = combined_panel c m)
            ["pearson"; "spearman"]%string (img_figure combined) /\
    forall m c, In m ["pearson"; "spearman"]%string -> m <> "combined"%string ->
                corr_identity numeric_table m = Ok c ->
                dict_get result m = Some (heat_image c m true false).
Proof.
  apply (advanced_all_methods_succeed corr_identity draws_zero numeric_table numeric_table
                                      ["a"; "b"; "c"]%string
                                      ["pearson"; "spearman"]%string empty_world).
  - reflexivity.
  - simpl. lia.
  - intros m _. eexists. reflexivity.
Defined.

(** ** Failures and what they leave behind *)

Lemma seq_plt_ok {A B : Type} (m : plt A) (k : A -> plt B) (w w1 : world) (a : A) :
  m w = (Ok a, w1) -> seq_plt m k w = k a w1.
Proof. intro H. unfold seq_plt. now rewrite H. Qed.

Lemma seq_plt_raise {A B : Type} (m : plt A) (k : A -> plt B) (w w1 : world) (e : exn) :
  m w = (Raise e, w1) -> seq_plt m k w = (Raise e, w1).
Proof. intro H. unfold seq_plt. now rewrite H. Qed.

Section FailureFacts.

Variable corr : table -> string -> outcome corr_frame.
Variable uniform : nat -> ndarray.

Lemma per_method_any (filtered_data : table) (methods : list string) :
  forall d w,
  exists d' w',
    per_method corr uniform filtered_data methods None d w = (Ok d', w') /\
    figs w' = figs w /\ files w' = files w.
Proof.
  induction methods as [|m rest IH]; intros d w.
  - exists d, w. repeat split.
  - cbn [per_method method_file].
    destruct (heatmap_run_any corr uniform filtered_data m w) as [img [w1 [E [Hf Hfl]]]].
    rewrite (seq_plt_ok _ _ _ _ _ E).
    destruct (IH (dict_set d m img) w1) as [d' [w2 [E2 [Hf2 Hfl2]]]].
    exists d', w2. split; [exact E2|]. split; congruence.
Qed.

Lemma combined_panels_raise_figs (filtered_data : table) (methods : list string)
      (method : string) (e : exn) :
  In method methods -> corr filtered_data method = Raise e ->
  forall f fs fl rc,
  exists e' arts,
    combined_panels corr filtered_data methods {| figs := f :: fs; files := fl; rng_calls := rc |}
    = (Raise e', {| figs := (f ++ arts) :: fs; files := fl; rng_calls := rc |}).
Proof.
  intros Hin Hraise. induction methods as [|m rest IH]; [inversion Hin|].
  intros f fs fl rc. cbn [combined_panels]. unfold seq_plt at 1, lift at 1.
  destruct (corr filtered_data m) as [c|e0] eqn:E.
  - destruct Hin as [->|Hin]; [congruence|].
    unfold seq_plt at 1. unfold draw, seq_plt at 1, gcf at 1. cbn [figs files rng_calls tl].
    destruct (IH Hin (f ++ [combined_panel c m]) fs fl rc) as [e' [arts Hrun]].
    exists e', (combined_panel c m :: arts).
    rewrite <- app_assoc in Hrun. exact Hrun.
  - exists e0, []. now rewrite app_nil_r.
Qed.

Lemma advanced_failure_run
      (data filtered_data : table) (target_variables methods : list string)
      (method : string) (e : exn) (w : world) :
  select data target_variables = Ok filtered_data ->
  (1 < List.length methods)%nat ->
  In method methods ->
  corr filtered_data method = Raise e ->
  exists e' w',
    generate_advanced_correlation_heatmap corr uniform data (Some target_variables)
                                          (Some methods) None w
    = (Raise e', w') /\
    List.length (figs w') = S (List.length (figs w)) /\
    files w' = files w.
Proof.
  intros Hsel Hlen Hin Hraise. unfold generate_advanced_correlation_heatmap.
  unfold seq_plt at 1, lift at 1. rewrite Hsel.
  destruct (per_method_any filtered_data methods [] w) as [d' [w1 [E1 [Hf Hfl]]]].
  rewrite (seq_plt_ok _ _ _ _ _ E1).
  apply Nat.ltb_lt in Hlen. rewrite Hlen.
  destruct w1 as [fg1 fl1 rc1]. cbn [figs files] in Hf, Hfl.
  unfold seq_plt at 1, new_figure at 1. cbn [figs files rng_calls].
  destruct (combined_panels_raise_figs filtered_data methods method e Hin Hraise
                                       blank fg1 fl1 rc1) as [e' [arts Hrun]].
  rewrite (seq_plt_raise _ _ _ _ _ Hrun).
  eexists. eexists. split; [reflexivity|]. cbn [figs files List.length].
  split; congruence.
Qed.


End FailureFacts.


(** ** Selecting columns *)

Lemma map_outcome_length {A B : Type} (f : A -> outcome B) (l : list A) (r : list B) :
  map_outcome f l = Ok r -> List.length r = List.length l.
Proof.
  revert r. induction l as [|a l IH]; intros r H; cbn [map_outcome] in H.
  - injection H as <-. reflexivity.
  - destruct (f a) as [b|e]; cbn [bind] in H; [|discriminate].
    destruct (map_outcome f l) as [bs|e]; cbn [bind] in H; [|discriminate].
    injection H as <-. cbn [List.length]. now rewrite (IH bs eq_refl).
Qed.

Lemma lookup_all_columns (names : list string) :
  NoDup names -> map_outcome (lookup_column names) names = Ok (seq 0 (List.length names)).
Proof.
  induction 1 as [|x rest Hx Hnd IH]; [reflexivity|].
  cbn [map_outcome List.length seq]. unfold lookup_column at 1. cbn [index_of].
  rewrite String.eqb_refl. cbn [bind].
  assert (Hshift : map_outcome (lookup_column (x :: rest)) rest
                   = Ok (map S (seq 0 (List.length rest)))).
  { rewrite (map_outcome_ok _ (fun v => match index_of v rest with
                                        | Some i => S i
                                        | None => O
                                        end)).
    - f_equal.
      assert (Hmap : forall l, (forall v, In v l -> In v rest) ->
                     map_outcome (lookup_column rest) l
                     = Ok (map (fun v => match index_of v rest with
                                         | Some i => i
                                         | None => O
                                         end) l)).
      { intros l Hl. apply map_outcome_ok. intros v Hv. unfold lookup_column.
        destruct (index_of v rest) eqn:E; [reflexivity|].
        exfalso. apply index_of_none in E.
        assert (Ht : existsb (String.eqb v) rest = true)
          by (apply existsb_exists; exists v; split; [now apply Hl|apply String.eqb_refl]).
        congruence. }
      rewrite (Hmap rest (fun v Hv => Hv)) in IH. injection IH as IH.
      rewrite <- IH, map_map. apply map_ext_in. intros v Hv.
      destruct (index_of v rest) eqn:E; [reflexivity|].
      exfalso. apply index_of_none in E.
      assert (Ht : existsb (String.eqb v) rest = true)
        by (apply existsb_exists; exists v; split; [exact Hv|apply String.eqb_refl]).
      congruence.
    - intros v Hv. unfold lookup_column. cbn [index_of].
      assert (Hne : String.eqb x v = false)
        by (apply String.eqb_neq; intro E; subst v; contradiction).
      rewrite Hne. destruct (index_of v rest) eqn:E; [reflexivity|].
      exfalso. apply index_of_none in E.
      assert (Ht : existsb (String.eqb v) rest = true)
        by (apply existsb_exists; exists v; split; [exact Hv|apply String.eqb_refl]).
      congruence. }
  rewrite Hshift. cbn [bind]. now rewrite seq_shift.
Qed.

Lemma map_nth_all {A : Type} (r : list A) (d : A) :
  map (fun i => nth i r d) (seq 0 (List.length r)) = r.
Proof.
  apply (nth_ext _ _ d d); [now rewrite length_map, length_seq|].
  intros i Hi. rewrite length_map, length_seq in Hi. now rewrite nth_map_seq.
Qed.

(** Selecting every column of a table with distinct column names and
    full rows gives the table back. *)
Lemma select_all_columns (t : table) :
  NoDup (columns t) ->
  (forall r, In r (cells t) -> List.length r = List.length (columns t)) ->
  select t (columns t) = Ok t.
Proof.
  intros Hnd Hrows. unfold select.
  change (map_outcome _ (columns t)) with (map_outcome (lookup_column (columns t)) (columns t)).
  rewrite (lookup_all_columns _ Hnd). cbn [bind]. destruct t as [cols rows0].
  cbn [columns cells] in *. f_equal. f_equal.
  rewrite <- (map_id rows0) at 2. apply map_ext_in. intros r Hr.
  rewrite <- (Hrows r Hr). apply map_nth_all.
Qed.

Lemma select_shape (data filtered_data : table) (vars : list string) :
  select data vars = Ok filtered_data ->
  columns filtered_data = vars /\
  forall r, In r (cells filtered_data) -> List.length r = List.length vars.
Proof.
  unfold select. intro H.
  destruct (map_outcome _ vars) as [idxs|e] eqn:E; cbn [bind] in H; [|discriminate].
  injection H as <-. cbn [columns cells]. split; [reflexivity|].
  intros r Hr. apply in_map_iff in Hr. destruct Hr as [r0 [<- _]].
  rewrite length_map. now apply (map_outcome_length _ _ _ E).
Qed.

Lemma select_again (data filtered_data : table) (vars : list string) :
  NoDup vars -> select data vars = Ok filtered_data ->
  select filtered_data (columns filtered_data) = Ok filtered_data.
Proof.
  intros Hnd Hsel. destruct (select_shape _ _ _ Hsel) as [Hc Hr].
  apply select_all_columns; rewrite Hc; assumption.
Qed.

(** ** generate_correlation_analysis *)

Lemma seq_plt_inv {A B : Type} (m : plt A) (k : A -> plt B) (w w' : world) (b : B) :
  seq_plt m k w = (Ok b, w') -> exists a w1, m w = (Ok a, w1) /\ k a w1 = (Ok b, w').
Proof.
  unfold seq_plt. destruct (m w) as [[a|e] w1]; intro H; [|discriminate].
  now exists a, w1.
Qed.

Section AnalysisFacts.

Variable corr : table -> string -> outcome corr_frame.
Variable uniform : nat -> ndarray.

(** The caller never lets an exception out: it returns either the
    empty dict or a dict with exactly three keys, the two single heat
    maps being always present in it. *)
Theorem correlation_analysis_never_raises
        (df : option table) (important_vars : option (list string)) (w : world) :
  exists result w',
    generate_correlation_analysis corr uniform df important_vars w = (Ok result, w') /\
    (result = [] \/
     exists pearson_img spearman_img combined,
       result = [ ("相关系数热力图(Pearson)"%string, Some pearson_img);
                  ("相关系数热力图(Spearman)"%string, Some spearman_img);
                  ("组合相关系数热力图"%string, combined) ]).
Proof.
  unfold generate_correlation_analysis.
  destruct df as [df|]; [|exists [], w; split; [reflexivity|now left]].
  destruct (df_empty df); [exists [], w; split; [reflexivity|now left]|].
  match goal with |- context [(?n <? 3)%nat] => destruct (n <? 3)%nat end;
    [exists [], w; split; [reflexivity|now left]|].
  unfold try_except.
  match goal with |- context [match ?body w with _ => _ end] => destruct (body w) as [[r|e] w1] eqn:E end.
  - exists r, w1. split; [reflexivity|]. right.
    apply seq_plt_inv in E. destruct E as [d1 [u1 [_ E]]].
    apply seq_plt_inv in E. destruct E as [p [u2 [_ E]]].
    apply seq_plt_inv in E. destruct E as [d2 [u3 [_ E]]].
    apply seq_plt_inv in E. destruct E as [sp [u4 [_ E]]].
    apply seq_plt_inv in E. destruct E as [d3 [u5 [_ E]]].
    apply seq_plt_inv in E. destruct E as [adv [u6 [_ E]]].
    unfold ret in E. injection E as <- _. now exists p, sp, (dict_get adv "combined").
  - exists [], w1. split; [reflexivity|now left].
Qed.

(** With three distinct variables or more, when the correlation
    routine raises for 'pearson' or for 'spearman', the two single heat
    maps are drawn from placeholders, then the combined figure fails and
    the handler of the caller throws everything away: the result is the
    empty dict.  The figure of the combined panels stays open. *)
Theorem correlation_analysis_loses_everything
        (df filtered_data : table) (important_vars : option (list string))
        (method : string) (e : exn) (w : world) :
  df_empty df = false ->
  (3 <= List.length (chosen_vars df important_vars))%nat ->
  NoDup (chosen_vars df important_vars) ->
  select df (chosen_vars df important_vars) = Ok filtered_data ->
  method = "pearson"%string \/ method = "spearman"%string ->
  corr filtered_data method = Raise e ->
  exists w',
    generate_correlation_analysis corr uniform (Some df) important_vars w = (Ok [], w') /\
    List.length (figs w') = S (List.length (figs w)) /\
    files w' = files w.
Proof.
  intros Hne Hlen Hnd Hsel Hm Hraise. unfold generate_correlation_analysis.
  rewrite Hne. cbv zeta. fold (chosen_vars df important_vars).
  assert (Hltb : (List.length (chosen_vars df important_vars) <? 3)%nat = false)
    by (apply Nat.ltb_ge; lia).
  rewrite Hltb. unfold try_except.
  unfold seq_plt at 1, lift at 1. rewrite Hsel.
  destruct (heatmap_run_any corr uniform filtered_data "pearson" w) as [p [w1 [E1 [F1 L1]]]].
  rewrite (seq_plt_ok _ _ _ _ _ E1). cbv beta.
  unfold seq_plt at 1, lift at 1. cbv beta iota.
  destruct (heatmap_run_any corr uniform filtered_data "spearman" w1) as [sp [w2 [E2 [F2 L2]]]].
  rewrite (seq_plt_ok _ _ _ _ _ E2). cbv beta.
  unfold seq_plt at 1, lift at 1. cbv beta iota.
  assert (Hin : In method ["pearson"; "spearman"]%string)
    by (destruct Hm as [->| ->]; simpl; tauto).
  destruct (advanced_failure_run corr uniform filtered_data filtered_data
              (columns filtered_data) ["pearson"; "spearman"]%string method e w2
              (select_again _ _ _ Hnd Hsel) ltac:(simpl; lia) Hin Hraise)
    as [e' [w3 [E3 [F3 L3]]]].
  change (generate_advanced_correlation_heatmap corr uniform filtered_data None
            (Some ["pearson"; "spearman"]%string) None)
    with (generate_advanced_correlation_heatmap corr uniform filtered_data
            (Some (columns filtered_data)) (Some ["pearson"; "spearman"]%string) None).
  rewrite (seq_plt_raise _ _ _ _ _ E3).
  exists w3. split; [reflexivity|]. split; congruence.
Qed.

(** With three distinct variables or more, when the correlation
    routine succeeds for both methods, the result holds the Pearson heat
    map, the Spearman heat map and the combined figure with its two
    panels, and pyplot is left as it was found. *)
Theorem correlation_analysis_success
        (df filtered_data : table) (important_vars : option (list string))
        (cp cs : corr_frame) (w : world) :
  df_empty df = false ->
  (3 <= List.length (chosen_vars df important_vars))%nat ->
  NoDup (chosen_vars df important_vars) ->
  select df (chosen_vars df important_vars) = Ok filtered_data ->
  corr filtered_data "pearson" = Ok cp ->
  corr filtered_data "spearman" = Ok cs ->
  generate_correlation_analysis corr uniform (Some df) important_vars w
  = (Ok [ ("相关系数热力图(Pearson)"%string, Some (heat_image cp "pearson" true false));
          ("相关系数热力图(Spearman)"%string, Some (heat_image cs "spearman" true false));
          ("组合相关系数热力图"%string,
           Some {| img_figure := [combined_panel cp "pearson";
                                  combined_panel cs "spearman"];
                   img_dpi := 150 |}) ],
     w).
Proof.
  intros Hne Hlen Hnd Hsel Hp Hs. unfold generate_correlation_analysis.
  rewrite Hne. cbv zeta. fold (chosen_vars df important_vars).
  assert (Hltb : (List.length (chosen_vars df important_vars) <? 3)%nat = false)
    by (apply Nat.ltb_ge; lia).
  rewrite Hltb. unfold try_except.
  unfold seq_plt at 1, lift at 1. rewrite Hsel.
  rewrite (seq_plt_ok _ _ _ _ _ (heatmap_run_ok corr uniform _ _ true false _ w Hp)). cbv beta.
  unfold seq_plt at 1, lift at 1. cbv beta iota.
  rewrite (seq_plt_ok _ _ _ _ _ (heatmap_run_ok corr uniform _ _ true false _ w Hs)). cbv beta.
  unfold seq_plt at 1, lift at 1. cbv beta iota.
  assert (Hok : forall m, In m ["pearson"; "spearman"]%string ->
                          exists c, corr filtered_data m = Ok c).
  { intros m [<-|[<-|[]]]; eexists; eassumption. }
  destruct (advanced_success_run corr uniform filtered_data filtered_data
              (columns filtered_data) ["pearson"; "spearman"]%string w
              (select_again _ _ _ Hnd Hsel) ltac:(simpl; lia) Hok)
    as [result [combined [E3 [Hget [Hdpi [Hall _]]]]]].
  change (generate_advanced_correlation_heatmap corr uniform filtered_data None
            (Some ["pearson"; "spearman"]%string) None)
    with (generate_advanced_correlation_heatmap corr uniform filtered_data
            (Some (columns filtered_data)) (Some ["pearson"; "spearman"]%string) None).
  rewrite (seq_plt_ok _ _ _ _ _ E3). cbv beta. unfold ret. rewrite Hget.
  destruct combined as [arts dpi]. cbn [img_figure img_dpi] in Hall, Hdpi. subst dpi.
  inversion Hall as [|m1 a1 ms1 as1 [c1 [Hc1 Ha1]] Hall1]; subst.
  inversion Hall1 as [|m2 a2 ms2 as2 [c2 [Hc2 Ha2]] Hall2]; subst.
  inversion Hall2; subst.
  rewrite Hp in Hc1. injection Hc1 as <-. rewrite Hs in Hc2. injection Hc2 as <-.
  reflexivity.
Qed.

End AnalysisFacts.

Lemma correlation_analysis_loses_everything_witness :
  exists w',
    generate_correlation_analysis corr_raises draws_zero (Some numeric_table)
                                  (Some ["a"; "b"; "c"]%string) empty_world
    = (Ok [], w') /\
    List.length (figs w') = S (List.length (figs empty_world)) /\
    files w' = files empty_world.
Proof.
  apply (correlation_analysis_loses_everything
           corr_raises draws_zero numeric_table numeric_table (Some ["a"; "b"; "c"]%string)
           "pearson"%string ValueError empty_world).
  - reflexivity.
  - simpl. lia.
  - repeat constructor; simpl; intuition discriminate.
  - reflexivity.
  - now left.
  - reflexivity.
Defined.

Lemma correlation_analysis_success_witness :
  exists cp cs,
    generate_correlation_analysis corr_identity draws_zero (Some numeric_table)
                                  (Some ["a"; "b"; "c"]%string) empty_world
    = (Ok [ ("相关系数热力图(Pearson)"%string, Some (heat_image cp "pearson" true false));
            ("相关系数热力图(Spearman)"%string, Some (heat_image cs "spearman" true false));
            ("组合相关系数热力图"%string,
             Some {| img_figure := [combined_panel cp "pearson";
                                    combined_panel cs "spearman"];
                     img_dpi := 150 |}) ],
       empty_world).
Proof.
  eexists. eexists.
  apply (correlation_analysis_success
           corr_identity draws_zero numeric_table numeric_table (Some ["a"; "b"; "c"]%string)).
  - reflexivity.
  - simpl. lia.
  - repeat constructor; simpl; intuition discriminate.
  - reflexivity.
  - reflexivity.
  - reflexivity.
Defined.

(** ** The pages of the file list *)

Lemma In_enumerate {A : Type} (l : list A) :
  forall start i x,
    In (i, x) (enumerate start l) <->
    exists t, i = (start + Z.of_nat t)%Z /\ nth_error l t = Some x.
Proof.
  induction l as [|y l IH]; intros start i x; cbn [enumerate].
  - split; [intros []|]. intros [t [_ H]]. destruct t; discriminate.
  - split.
    + intros [H|H].
      * injection H as <- <-. exists O. split; [lia|reflexivity].
      * apply IH in H. destruct H as [t [Hi Ht]]. exists (S t). split; [lia|exact Ht].
    + intros [[|t] [Hi Ht]].
      * left. cbn [nth_error] in Ht. injection Ht as <-. f_equal. lia.
      * right. apply IH. exists t. split; [lia|exact Ht].
Qed.

Lemma enumerate_length {A : Type} (l : list A) :
  forall start, List.length (enumerate start l) = List.length l.
Proof.
  induction l as [|y l IH]; intro start; cbn [enumerate List.length]; [reflexivity|].
  now rewrite IH.
Qed.

Lemma py_slice_inside {A : Type} (l : list A) (a b : Z) :
  (0 <= a <= b)%Z -> (b <= Z.of_nat (List.length l))%Z ->
  py_slice l a b = firstn (Z.to_nat (b - a)) (skipn (Z.to_nat a) l).
Proof.
  intros Hab Hb. unfold py_slice.
  destruct (Z.ltb_spec a 0); [lia|]. destruct (Z.ltb_spec b 0); [lia|].
  now rewrite !Z.min_l by lia.
Qed.

Section FileMenuFacts.

Variable lower : string -> string.

Lemma display_files_page_aux
        (files : list string) (page_size page : Z) (filter_text : string) :
  (0 < page_size)%Z ->
  exists pg,
    display_files lower files page_size page filter_text = Ok pg /\
    filtered_files pg
    = filter (fun name => contains (lower filter_text) (lower name)) files /\
    let n := Z.of_nat (List.length (filtered_files pg)) in
    total_pages pg = ((n + page_size - 1) / page_size)%Z /\
    (n = 0%Z -> listed pg = [] /\ current_page pg = page) /\
    ((0 < n)%Z ->
     (1 <= current_page pg <= total_pages pg)%Z /\
     ((1 <= page <= total_pages pg)%Z -> current_page pg = page) /\
     (1 <= Z.of_nat (List.length (listed pg)) <= page_size)%Z /\
     forall i name, In (i, name) (listed pg) ->
       select_file (filtered_files pg) i = Some name /\
       ((current_page pg - 1) * page_size < i <= current_page pg * page_size)%Z).
Proof.
  intro Hps. unfold display_files.
  set (filtered := filter _ files). set (n := Z.of_nat (List.length filtered)).
  destruct (Z.eqb_spec page_size 0) as [|_]; [lia|].
  set (total := ((n + page_size - 1) / page_size)%Z).
  assert (Hn : (0 <= n)%Z) by (unfold n; lia).
  assert (Hdm : (n + page_size - 1 = page_size * total + (n + page_size - 1) mod page_size)%Z)
    by (apply Z.div_mod; lia).
  pose proof (Z.mod_pos_bound (n + page_size - 1) page_size Hps) as Hmod.
  destruct (Z.eqb_spec total 0) as [Ht0|Ht0].
  - eexists. split; [reflexivity|]. cbn [filtered_files total_pages current_page listed].
    split; [reflexivity|]. fold n. split; [reflexivity|]. split; [auto|]. intro Hpos.
    fold total. nia.
  - eexists. split; [reflexivity|]. cbn [filtered_files total_pages current_page listed].
    split; [reflexivity|]. fold n. split; [reflexivity|].
    split; [intro Hz; exfalso; apply Ht0; unfold total; rewrite Hz;
            apply Z.div_small; lia|].
    intro Hpos. fold total.
    assert (Htot : (1 <= total)%Z) by nia.
    set (cp := Z.max 1 (Z.min page total)).
    assert (Hcp : (1 <= cp <= total)%Z) by (unfold cp; lia).
    set (start := ((cp - 1) * page_size)%Z).
    set (stop := Z.min (start + page_size) n).
    assert (Hstart : (0 <= start < n)%Z) by (unfold start; nia).
    assert (Hstop : (start < stop <= n)%Z) by (unfold stop; lia).
    rewrite py_slice_inside by (fold n; lia).
    split; [exact Hcp|]. split; [intro Hp; unfold cp; lia|].
    split.
    { rewrite enumerate_length, length_firstn, length_skipn.
      fold n. unfold stop in *. lia. }
    intros i name Hin. apply In_enumerate in Hin. destruct Hin as [t [Hi Ht]].
    rewrite nth_error_firstn in Ht.
    destruct (Nat.ltb_spec t (Z.to_nat (stop - start))) as [Hlt|]; [|discriminate].
    rewrite nth_error_skipn in Ht.
    split.
    + unfold select_file. fold n.
      destruct (Z.leb_spec 1 i); [|lia]. destruct (Z.leb_spec i n); [|lia]. cbn [andb].
      rewrite <- Ht. f_equal. lia.
    + unfold stop, start in *. lia.
Qed.

(** The page shown.  With no matching file nothing is listed and the
    page number is returned as given.  Otherwise the page number is
    brought into 1..total_pages (and kept when it already is there), the
    page lists between 1 and [page_size] files, and the number printed
    in front of a file is the number that selects this very file in the
    main loop. *)
Theorem display_files_page
        (files : list string) (page_size page : Z) (filter_text : string) :
  (0 < page_size)%Z ->
  exists pg,
    display_files lower files page_size page filter_text = Ok pg /\
    filtered_files pg
    = filter (fun name => contains (lower filter_text) (lower name)) files /\
    let n := Z.of_nat (List.length (filtered_files pg)) in
    total_pages pg = ((n + page_size - 1) / page_size)%Z /\
    (n = 0%Z -> listed pg = [] /\ current_page pg = page) /\
    ((0 < n)%Z ->
     (1 <= current_page pg <= total_pages pg)%Z /\
     ((1 <= page <= total_pages pg)%Z -> current_page pg = page) /\
     (1 <= Z.of_nat (List.length (listed pg)) <= page_size)%Z /\
     forall i name, In (i, name) (listed pg) ->
       select_file (filtered_files pg) i = Some name /\
       ((current_page pg - 1) * page_size < i <= current_page pg * page_size)%Z).
Proof.
  intro Hps. unfold display_files.
  set (filtered := filter _ files). set (n := Z.of_nat (List.length filtered)).
  destruct (Z.eqb_spec page_size 0) as [|_]; [lia|].
  set (total := ((n + page_size - 1) / page_size)%Z).
  assert (Hn : (0 <= n)%Z) by (unfold n; lia).
  assert (Hdm : (n + page_size - 1 = page_size * total + (n + page_size - 1) mod page_size)%Z)
    by (apply Z.div_mod; lia).
  pose proof (Z.mod_pos_bound (n + page_size - 1) page_size Hps) as Hmod.
  destruct (Z.eqb_spec total 0) as [Ht0|Ht0].
  - eexists. split; [reflexivity|]. cbn [filtered_files total_pages current_page listed].
    split; [reflexivity|]. fold n. split; [reflexivity|]. split; [auto|]. intro Hpos.
    fold total. nia.
  - eexists. split; [reflexivity|]. cbn [filtered_files total_pages current_page listed].
    split; [reflexivity|]. fold n. split; [reflexivity|].
    split; [intro Hz; exfalso; apply Ht0; unfold total; rewrite Hz;
            apply Z.div_small; lia|].
    intro Hpos. fold total.
    assert (Htot : (1 <= total)%Z) by nia.
    set (cp := Z.max 1 (Z.min page total)).
    assert (Hcp : (1 <= cp <= total)%Z) by (unfold cp; lia).
    set (start := ((cp - 1) * page_size)%Z).
    set (stop := Z.min (start + page_size) n).
    assert (Hstart : (0 <= start < n)%Z) by (unfold start; nia).
    assert (Hstop : (start < stop <= n)%Z) by (unfold stop; lia).
    rewrite py_slice_inside by (fold n; lia).
    split; [exact Hcp|]. split; [intro Hp; unfold cp; lia|].
    split.
    { rewrite enumerate_length, length_firstn, length_skipn.
      fold n. unfold stop in *. lia. }
    intros i name Hin. apply In_enumerate in Hin. destruct Hin as [t [Hi Ht]].
    rewrite nth_error_firstn in Ht.
    destruct (Nat.ltb_spec t (Z.to_nat (stop - start))) as [Hlt|]; [|discriminate].
    rewrite nth_error_skipn in Ht.
    split.
    + unfold select_file. fold n.
      destruct (Z.leb_spec 1 i); [|lia]. destruct (Z.leb_spec i n); [|lia]. cbn [andb].
      rewrite <- Ht. f_equal. lia.
    + unfold stop, start in *. lia.
Qed.

(** Every matching file is listed on one page and one only: the file at
    position [k] of the filtered list (counting from 0) appears, under
    the number [k + 1], on page [k // page_size + 1], and on no other
    page. *)
Theorem every_file_has_its_page
        (files : list string) (page_size : Z) (filter_text : string) (k : nat) (name : string) :
  (0 < page_size)%Z ->
  nth_error (filter (fun name => contains (lower filter_text) (lower name)) files) k
  = Some name ->
  (exists pg,
     display_files lower files page_size (Z.of_nat k / page_size + 1) filter_text = Ok pg /\
     current_page pg = (Z.of_nat k / page_size + 1)%Z /\
     In (Z.of_nat k + 1, name)%Z (listed pg)) /\
  (forall page pg other,
     display_files lower files page_size page filter_text = Ok pg ->
     In (Z.of_nat k + 1, other)%Z (listed pg) ->
     current_page pg = (Z.of_nat k / page_size + 1)%Z /\ other = name).
Proof.
  intros Hps Hk.
  set (filtered := filter (fun name => contains (lower filter_text) (lower name)) files) in *.
  assert (Hlen : (k < List.length filtered)%nat)
    by (apply nth_error_Some; congruence).
  split.
  - unfold display_files. fold filtered.
    set (n := Z.of_nat (List.length filtered)).
    destruct (Z.eqb_spec page_size 0) as [|_]; [lia|].
    set (total := ((n + page_size - 1) / page_size)%Z).
    assert (Hn : (Z.of_nat k < n)%Z) by (unfold n; lia).
    assert (Hdm : (n + page_size - 1
                   = page_size * total + (n + page_size - 1) mod page_size)%Z)
      by (apply Z.div_mod; lia).
    pose proof (Z.mod_pos_bound (n + page_size - 1) page_size Hps) as Hmod.
    pose proof (Z.div_mod (Z.of_nat k) page_size ltac:(lia)) as Hkd.
    pose proof (Z.mod_pos_bound (Z.of_nat k) page_size Hps) as Hkm.
    set (q := (Z.of_nat k / page_size)%Z) in *.
    assert (Hq : (0 <= q)%Z) by (apply Z.div_pos; lia).
    assert (Hqt : (q + 1 <= total)%Z) by nia.
    destruct (Z.eqb_spec total 0) as [Ht0|Ht0]; [lia|].
    eexists. split; [reflexivity|]. cbn [current_page listed].
    replace (Z.max 1 (Z.min (q + 1) total)) with (q + 1)%Z by lia.
    split; [reflexivity|].
    replace (q + 1 - 1)%Z with q by lia.
    rewrite py_slice_inside by (fold n; nia).
    apply In_enumerate. exists (Z.to_nat (Z.of_nat k - q * page_size)).
    split; [lia|].
    rewrite nth_error_firstn.
    destruct (Nat.ltb_spec (Z.to_nat (Z.of_nat k - q * page_size))
                           (Z.to_nat (Z.min (q * page_size + page_size) n - q * page_size)))
      as [_|Hge]; [|lia].
    rewrite nth_error_skipn. rewrite <- Hk. f_equal. lia.
  - intros page pg other Hrun Hin.
    destruct (display_files_page_aux files page_size page filter_text Hps)
      as [pg' [Hrun' [Hf [_ [_ Hpos]]]]].
    rewrite Hrun in Hrun'. injection Hrun' as <-.
    fold filtered in Hf. rewrite Hf in Hpos.
    destruct (Hpos ltac:(lia)) as [_ [_ [_ Hlisted]]].
    destruct (Hlisted _ _ Hin) as [Hsel Hrange]. split.
    + assert (E : (Z.of_nat k / page_size = current_page pg - 1)%Z).
      { symmetry. apply (Z.div_unique _ _ _ (Z.of_nat k - (current_page pg - 1) * page_size));
          lia. }
      lia.
    + unfold select_file in Hsel.
      destruct ((1 <=? Z.of_nat k + 1)%Z && (Z.of_nat k + 1 <=? Z.of_nat (List.length filtered))%Z)%bool;
        [|discriminate].
      replace (Z.to_nat (Z.of_nat k + 1 - 1)) with k in Hsel by lia. congruence.
Qed.

End FileMenuFacts.

Lemma display_files_page_witness :
  exists pg,
    display_files (fun s => s) ["a.csv"; "b.csv"; "c.csv"]%string 2 5 ""%string = Ok pg /\
    filtered_files pg
    = filter (fun name => contains "" name) ["a.csv"; "b.csv"; "c.csv"]%string /\
    let n := Z.of_nat (List.length (filtered_files pg)) in
    total_pages pg = ((n + 2 - 1) / 2)%Z /\
    (n = 0%Z -> listed pg = [] /\ current_page pg = 5%Z) /\
    ((0 < n)%Z ->
     (1 <= current_page pg <= total_pages pg)%Z /\
     ((1 <= 5 <= total_pages pg)%Z -> current_page pg = 5%Z) /\
     (1 <= Z.of_nat (List.length (listed pg)) <= 2)%Z /\
     forall i name, In (i, name) (listed pg) ->
       select_file (filtered_files pg) i = Some name /\
       ((current_page pg - 1) * 2 < i <= current_page pg * 2)%Z).
Proof.
  apply (display_files_page (fun s => s) ["a.csv"; "b.csv"; "c.csv"]%string 2 5 ""%string).
  lia.
Defined.

Lemma every_file_has_its_page_witness :
  (exists pg,
     display_files (fun s => s) ["a.csv"; "b.csv"; "c.csv"]%string 2 (Z.of_nat 2 / 2 + 1)
                   ""%string = Ok pg /\
     current_page pg = (Z.of_nat 2 / 2 + 1)%Z /\
     In (Z.of_nat 2 + 1, "c.csv"%string)%Z (listed pg)) /\
  (forall page pg other,
     display_files (fun s => s) ["a.csv"; "b.csv"; "c.csv"]%string 2 page ""%string = Ok pg ->
     In (Z.of_nat 2 + 1, other)%Z (listed pg) ->
     current_page pg = (Z.of_nat 2 / 2 + 1)%Z /\ other = "c.csv"%string).
Proof.
  apply (every_file_has_its_page (fun s => s) ["a.csv"; "b.csv"; "c.csv"]%string 2 ""%string
                                 2 "c.csv"%string).
  - lia.
  - reflexivity.
Defined.

(** ** The two masks of generate_advanced_correlation_heatmap *)

(** For one matrix, the single heat map that
    [generate_advanced_correlation_heatmap] asks for (mask_half set,
    diagonal unset) and the panel of the combined figure hide the same
    cells off the diagonal, those above it; on the diagonal they differ:
    the panel hides it, the single heat map shows it. *)
Theorem combined_panel_mask_differs_on_the_diagonal (n i j : nat) :
  (i < n)%nat -> (j < n)%nat ->
  hidden (Some (triu_ones n)) i j = (i <=? j)%nat /\
  hidden (make_mask n true false) i j = (i <? j)%nat /\
  (hidden (Some (triu_ones n)) i j = hidden (make_mask n true false) i j <-> i <> j).
Proof.
  intros Hi Hj.
  assert (H1 : hidden (Some (triu_ones n)) i j = (i <=? j)%nat)
    by (cbn [hidden]; now apply triu_ones_nth).
  assert (H2 : hidden (make_mask n true false) i j = (i <? j)%nat).
  { unfold make_mask, hidden. cbn [negb].
    rewrite fill_diagonal_nth
      by (rewrite ?triu_ones_length, ?triu_ones_row_length; assumption).
    rewrite triu_ones_nth by assumption.
    destruct (Nat.eqb_spec i j), (Nat.ltb_spec i j), (Nat.leb_spec i j);
      try reflexivity; lia. }
  split; [exact H1|]. split; [exact H2|]. rewrite H1, H2.
  destruct (Nat.ltb_spec i j), (Nat.leb_spec i j); split; intro; try lia; try congruence.
Qed.

Lemma combined_panel_mask_differs_on_the_diagonal_witness :
  hidden (Some (triu_ones 3)) 1 1 = true /\
  hidden (make_mask 3 true false) 1 1 = false /\
  (hidden (Some (triu_ones 3)) 1 1 = hidden (make_mask 3 true false) 1 1 <-> 1%nat <> 1%nat).
Proof.
  apply (combined_panel_mask_differs_on_the_diagonal 3 1 1); lia.
Defined.

(** ** The style data *)

(** The indicators that [calculate_mahjong_style] reads are the ones
    [calculate_statistics] sets to fixed estimates, so the style data do
    not depend on the games: for every frame they are the twelve
    defaults (25, 15, 30, 20, 10, 6500, 11.5, 5800, 15, 7.5, 75, 25),
    whatever rounding and standard deviation compute. *)
Theorem style_data_do_not_depend_on_the_games
        (round_ : num -> nat -> num) (std : list Q -> num) (df : option games_frame) :
  calculate_mahjong_style (calculate_statistics round_ std df) = calculate_mahjong_style [].
Proof.
  destruct df as [[hp hr gs]|]; [|reflexivity].
  destruct gs as [|g gs]; [reflexivity|].
  unfold calculate_statistics. cbn [games has_pt has_r]. cbv zeta.
  repeat match goal with
         | |- context [if ?b then _ else _] => destruct b
         end;
    vm_compute; reflexivity.
Qed.

(** ** preprocess_data: the most recent games *)

Section SortFacts.

Variable Row : Type.
Variable start_time : Row -> option Z.

Abbreviation before := (comes_before Row start_time).
Abbreviation sorted asc := (StronglySorted (fun a b => before asc a b = true)).

Lemma before_total (asc : bool) (a b : Row) : before asc a b = false -> before asc b a = true.
Proof.
  unfold comes_before. destruct (start_time a), (start_time b), asc; try congruence;
    intro H; apply Z.leb_gt in H; apply Z.leb_le; lia.
Qed.

Lemma before_trans (asc : bool) (a b c : Row) :
  before asc a b = true -> before asc b c = true -> before asc a c = true.
Proof.
  unfold comes_before. destruct (start_time a), (start_time b), (start_time c), asc;
    try congruence; intros H1 H2; apply Z.leb_le in H1; apply Z.leb_le in H2;
    apply Z.leb_le; lia.
Qed.

Lemma before_antisym (asc : bool) (a b : Row) :
  before asc a b = true -> before asc b a = true -> start_time a = start_time b.
Proof.
  unfold comes_before. destruct (start_time a), (start_time b), asc; try congruence;
    intros H1 H2; apply Z.leb_le in H1; apply Z.leb_le in H2; f_equal; lia.
Qed.

Lemma before_flip (a b : Row) :
  start_time a <> None -> start_time b <> None -> before false a b = before true b a.
Proof.
  unfold comes_before. destruct (start_time a), (start_time b); congruence.
Qed.

Lemma insert_by_perm (asc : bool) (r : Row) (l : list Row) :
  Permutation (insert_by Row start_time asc r l) (r :: l).
Proof.
  induction l as [|r' rest IH]; cbn [insert_by]; [apply Permutation_refl|].
  destruct (before asc r r'); [apply Permutation_refl|].
  apply perm_trans with (r' :: r :: rest); [now apply perm_skip|apply perm_swap].
Qed.

Lemma sort_by_perm (asc : bool) (l : list Row) :
  Permutation (sort_by Row start_time asc l) l.
Proof.
  induction l as [|r l IH]; [apply Permutation_refl|].
  cbn [sort_by fold_right]. fold (sort_by Row start_time asc l).
  apply perm_trans with (r :: sort_by Row start_time asc l);
    [apply insert_by_perm|now apply perm_skip].
Qed.

Lemma insert_by_sorted (asc : bool) (r : Row) (l : list Row) :
  sorted asc l -> sorted asc (insert_by Row start_time asc r l).
Proof.
  induction 1 as [|r' rest Hs IH Hall]; cbn [insert_by].
  - constructor; constructor.
  - destruct (before asc r r') eqn:E.
    + constructor; [now constructor|]. constructor; [exact E|].
      apply Forall_forall. intros x Hx. rewrite Forall_forall in Hall.
      apply before_trans with r'; [exact E|now apply Hall].
    + constructor; [exact IH|].
      apply Forall_forall. intros x Hx.
      apply (Permutation_in _ (insert_by_perm asc r rest)) in Hx.
      destruct Hx as [<-|Hx]; [now apply before_total|].
      rewrite Forall_forall in Hall. now apply Hall.
Qed.

Lemma sort_by_sorted (asc : bool) (l : list Row) : sorted asc (sort_by Row start_time asc l).
Proof.
  induction l as [|r l IH]; [constructor|].
  cbn [sort_by fold_right]. fold (sort_by Row start_time asc l). now apply insert_by_sorted.
Qed.

Lemma sorted_unique (asc : bool) (l1 : list Row) :
  forall l2,
    sorted asc l1 -> sorted asc l2 -> Permutation l1 l2 ->
    NoDup (map start_time l1) -> l1 = l2.
Proof.
  induction l1 as [|a t1 IH]; intros l2 H1 H2 Hp Hnd.
  - apply Permutation_nil in Hp. now subst.
  - destruct l2 as [|b t2]; [apply Permutation_sym, Permutation_nil in Hp; discriminate|].
    inversion H1 as [|? ? Hs1 Ha]; subst. inversion H2 as [|? ? Hs2 Hb]; subst.
    cbn [map] in Hnd. inversion Hnd as [|? ? Hnotin Hnd']; subst.
    assert (Eab : a = b).
    { assert (Ha2 : In a (b :: t2)) by (apply (Permutation_in _ Hp); now left).
      destruct Ha2 as [E|Ha2]; [now symmetry|].
      assert (Hb1 : In b (a :: t1))
        by (apply (Permutation_in _ (Permutation_sym Hp)); now left).
      destruct Hb1 as [E|Hb1]; [exact E|].
      exfalso. apply Hnotin.
      rewrite Forall_forall in Ha, Hb.
      rewrite (before_antisym asc a b (Ha b Hb1) (Hb a Ha2)). now apply in_map. }
    subst b. f_equal. apply IH; try assumption.
    now apply Permutation_cons_inv in Hp.
Qed.

Lemma sorted_snoc (asc : bool) (l : list Row) (a : Row) :
  sorted asc l -> Forall (fun x => before asc x a = true) l -> sorted asc (l ++ [a]).
Proof.
  induction 1 as [|r rest Hs IH Hall]; intro Hf; cbn [app].
  - constructor; constructor.
  - inversion Hf as [|? ? Hra Hrest]; subst. constructor; [now apply IH|].
    apply Forall_app. split; [exact Hall|]. constructor; [exact Hra|constructor].
Qed.

Lemma sorted_rev (l : list Row) :
  (forall r, In r l -> start_time r <> None) ->
  sorted true l -> sorted false (rev l).
Proof.
  intros Hsome. induction 1 as [|r rest Hs IH Hall]; cbn [rev]; [constructor|].
  apply sorted_snoc.
  - apply IH. intros x Hx. apply Hsome. now right.
  - apply Forall_forall. intros x Hx. apply in_rev in Hx.
    rewrite before_flip by (apply Hsome; first [now right|now left]).
    rewrite Forall_forall in Hall. now apply Hall.
Qed.

Lemma sorted_skipn (asc : bool) (n : nat) (l : list Row) :
  sorted asc l -> sorted asc (skipn n l).
Proof.
  revert l. induction n as [|n IH]; intros l Hs; [exact Hs|].
  destruct l as [|r rest]; [constructor|].
  cbn [skipn]. apply IH. now inversion Hs.
Qed.

Lemma NoDup_skipn {A : Type} (n : nat) (l : list A) : NoDup l -> NoDup (skipn n l).
Proof.
  intro H. rewrite <- (firstn_skipn n l) in H. now apply NoDup_app_remove_l in H.
Qed.

(** What the two sorts and the cut in between amount to. *)
Lemma latest_games (l : list Row) (k : nat) :
  (forall r, In r l -> start_time r <> None) ->
  NoDup (map start_time l) ->
  sort_by Row start_time true (firstn k (sort_by Row start_time false l))
  = skipn (List.length l - k) (sort_by Row start_time true l).
Proof.
  intros Hsome Hnd.
  set (s := sort_by Row start_time true l).
  assert (Hps : Permutation s l) by apply sort_by_perm.
  assert (Hnds : NoDup (map start_time s)).
  { apply (Permutation_NoDup (l := map start_time l)); [|exact Hnd].
    apply Permutation_map, Permutation_sym, Hps. }
  assert (Hdesc : sort_by Row start_time false l = rev s).
  { apply (sorted_unique false).
    - apply sort_by_sorted.
    - apply sorted_rev; [|apply sort_by_sorted].
      intros r Hr. apply Hsome. now apply (Permutation_in _ Hps).
    - apply perm_trans with l; [apply sort_by_perm|].
      apply perm_trans with s; [now apply Permutation_sym|apply Permutation_rev].
    - apply (Permutation_NoDup (l := map start_time l)); [|exact Hnd].
      apply Permutation_map, Permutation_sym, sort_by_perm. }
  rewrite Hdesc, firstn_rev.
  replace (List.length s) with (List.length l) by (symmetry; now apply Permutation_length).
  set (t := skipn (List.length l - k) s).
  apply (sorted_unique true).
  - apply sort_by_sorted.
  - apply sorted_skipn, sort_by_sorted.
  - apply perm_trans with (rev t); [apply sort_by_perm|apply Permutation_sym, Permutation_rev].
  - apply (Permutation_NoDup (l := map start_time t)).
    + apply Permutation_map.
      apply perm_trans with (rev t); [apply Permutation_rev|apply Permutation_sym, sort_by_perm].
    + unfold t. rewrite <- skipn_map. now apply NoDup_skipn.
Qed.

End SortFacts.

(** When every start time parses and no two games start at the same
    instant, [preprocess_data] returns the games in chronological order,
    cut down to the [max_games] most recent ones when [max_games] is
    positive and smaller than the number of games, and all of them
    otherwise. *)
Theorem preprocess_data_keeps_the_latest_games
        (Raw Row : Type) (convert : Raw -> Row) (start_time : Row -> option Z)
        (rows : list Raw) (max_games : option Z) :
  let processed := map convert rows in
  let n := List.length processed in
  let kept := match max_games with
              | Some k => if ((0 <? k)%Z && (k <? Z.of_nat n)%Z)%bool then Z.to_nat k else n
              | None => n
              end in
  (forall r, In r processed -> start_time r <> None) ->
  NoDup (map start_time processed) ->
  exists out,
    preprocess_data Raw Row convert start_time (Some rows) max_games = Some out /\
    out = skipn (n - kept) (sort_by Row start_time true processed) /\
    List.length out = kept /\
    StronglySorted (fun a b => comes_before Row start_time true a b = true) out.
Proof.
  intros processed n kept Hsome Hnd.
  assert (Hlen : forall asc, List.length (sort_by Row start_time asc processed) = n)
    by (intro asc; apply Permutation_length, sort_by_perm).
  assert (Hall : sort_by Row start_time true (sort_by Row start_time false processed)
                 = sort_by Row start_time true processed).
  { apply (sorted_unique Row start_time true); try apply sort_by_sorted.
    - apply perm_trans with (sort_by Row start_time false processed);
        [apply sort_by_perm|].
      apply perm_trans with processed; [apply sort_by_perm|apply Permutation_sym, sort_by_perm].
    - apply (Permutation_NoDup (l := map start_time processed)); [|exact Hnd].
      apply Permutation_map, Permutation_sym.
      apply perm_trans with (sort_by Row start_time false processed); apply sort_by_perm. }
  assert (Hout : preprocess_data Raw Row convert start_time (Some rows) max_games
                 = Some (skipn (n - kept) (sort_by Row start_time true processed))).
  { unfold preprocess_data. fold processed. rewrite (Hlen false). f_equal.
    unfold kept. destruct max_games as [k|].
    - destruct ((0 <? k)%Z && (k <? Z.of_nat n)%Z)%bool.
      + apply latest_games; assumption.
      + rewrite Nat.sub_diag. exact Hall.
    - rewrite Nat.sub_diag. exact Hall. }
  eexists. split; [exact Hout|]. split; [reflexivity|]. split.
  - rewrite length_skipn, (Hlen true). unfold kept.
    destruct max_games as [k|]; [|lia].
    destruct ((0 <? k)%Z && (k <? Z.of_nat n)%Z)%bool eqn:E; [|lia].
    apply andb_true_iff in E. destruct E as [E1 E2].
    apply Z.ltb_lt in E1. apply Z.ltb_lt in E2. lia.
  - apply sorted_skipn, sort_by_sorted.
Qed.

Lemma preprocess_data_keeps_the_latest_games_witness :
  exists out,
    preprocess_data Z Z (fun t => t) Some (Some [3; 1; 2]%Z) (Some 2%Z) = Some out /\
    out = skipn (3 - 2) (sort_by Z Some true [3; 1; 2]%Z) /\
    List.length out = 2%nat /\
    StronglySorted (fun a b => comes_before Z Some true a b = true) out.
Proof.
  apply (preprocess_data_keeps_the_latest_games Z Z (fun t => t) Some [3; 1; 2]%Z (Some 2%Z)).
  - intros r _. discriminate.
  - repeat constructor; simpl; intuition discriminate.
Defined.
